(** * scripts/bundle-a2ui.ts: the fingerprint-gated A2UI bundle build

    A shallow embedding of the script and the properties its design
    document states about it.

    Conventions of the model.
    - A JavaScript string is represented by the bytes of its UTF-8 encoding
      (a Rocq [string]); this is the form in which [hash.update(str)] and
      [fs.writeFile(_, str, "utf8")] put a string on the wire.  A [Buffer]
      is a [list byte].
    - The filesystem is a finite map from absolute paths to nodes; [fs.stat],
      [fs.readdir], [fs.readFile] and [fs.writeFile] are lookups and updates
      of that map and fail as the system calls do.
    - The recursion of [walk] follows the directory entries it reads, so it
      is driven by fuel; running out of fuel is the result [Diverge].
    - [String.prototype.localeCompare], [path.sep], the location of the
      checkout, the process environment and the external processes started
      through [spawnSync] belong to the platform and are section variables.
    - [path.join] and [path.relative] are modelled on the arguments the
      script gives them: a normalised absolute path joined with a plain
      name, and a path inside the checkout made relative to its root.
    - Bytes of the cache record that are not UTF-8 are kept as they are,
      where Node decodes them to U+FFFD; either way the text read is not a
      hexadecimal digest. *)

From Stdlib Require Import ZArith NArith Lia Bool.
From Stdlib Require Import Ascii String.
From Stdlib.Strings Require Import Byte.
From Stdlib Require Import Permutation Sorted.
From stdpp Require Import gmap strings list fin_maps.

(** ** Strings and buffers *)

Definition utf8 (s : string) : list byte := list_byte_of_string s.
Definition utf8_decode (b : list byte) : string := string_of_list_byte b.

(** ** Results of fallible, possibly non-terminating computations *)

(** What the script can throw: a failed system call of node:fs, the
    [res.error] of [spawnSync] (kept as the text [String] prints for it),
    and the [Error] that [runPnpm] builds for a nonzero exit status. *)
Inductive error :=
| SystemError (code syscall : string) (path : option string)
| SpawnError (message : string)
| CommandFailed (args : list string).

Inductive result (A : Type) :=
| Ok (a : A)
| Throw (e : error)
| Diverge.
Arguments Ok {A} a.
Arguments Throw {A} e.
Arguments Diverge {A}.

Definition bind {A B} (m : result A) (k : A -> result B) : result B :=
  match m with
  | Ok a => k a
  | Throw e => Throw e
  | Diverge => Diverge
  end.

Notation "'let*' x := m 'in' k" := (bind m (fun x => k))
  (at level 10, x name, m at level 100, k at level 200).

(** [for (const x of xs) { acc = await body(x, acc) }] *)
Fixpoint for_of {A S} (xs : list A) (body : A -> S -> result S) (acc : S)
  : result S :=
  match xs with
  | [] => Ok acc
  | x :: xs' => let* acc' := body x acc in for_of xs' body acc'
  end.

(** ** The filesystem *)

Inductive node :=
| File (data : list byte)
| Dir (entries : list string).

Abbreviation filesystem := (gmap string node).

Definition stat (fs : filesystem) (p : string) : result node :=
  match fs !! p with
  | Some n => Ok n
  | None => Throw (SystemError "ENOENT" "stat" (Some p))
  end.

Definition isDirectory (st : node) : bool :=
  match st with Dir _ => true | File _ => false end.

Definition readdir (fs : filesystem) (p : string) : result (list string) :=
  match fs !! p with
  | Some (Dir entries) => Ok entries
  | Some (File _) => Throw (SystemError "ENOTDIR" "scandir" (Some p))
  | None => Throw (SystemError "ENOENT" "scandir" (Some p))
  end.

Definition readFile (fs : filesystem) (p : string) : result (list byte) :=
  match fs !! p with
  | Some (File data) => Ok data
  | Some (Dir _) => Throw (SystemError "EISDIR" "read" None)
  | None => Throw (SystemError "ENOENT" "open" (Some p))
  end.

Definition isRegular (fs : filesystem) (p : string) : Prop :=
  exists data, fs !! p = Some (File data).

(** [out'] is [out] followed by regular files. *)
Definition extends (fs : filesystem) (out out' : list string) : Prop :=
  exists added, out' = out ++ added /\ Forall (isRegular fs) added.

(** [q] is [p] or a path that continues [p]. *)
Definition below (p q : string) : Prop := exists rest, q = p +:+ rest.

(** [exists(p)]: [fs.stat] with every failure collapsed to [false]. *)
Definition exists_ (fs : filesystem) (p : string) : bool :=
  match stat fs p with
  | Ok _ => true
  | _ => false
  end.

(** ** SHA-256 and the hexadecimal digest

    [createHash("sha256")] of node:crypto: the function of FIPS 180-4 on
    32-bit words, here numbers below 2^32. *)

Module SHA256.

Definition w32 (x : N) : N := N.land x 0xFFFFFFFF.
Definition add32 (x y : N) : N := w32 (x + y).
Definition not32 (x : N) : N := N.lxor x 0xFFFFFFFF.
Definition rotr (n x : N) : N :=
  N.lor (N.shiftr x n) (w32 (N.shiftl x (32 - n))).
Definition shr (n x : N) : N := N.shiftr x n.

Definition Ch (x y z : N) : N := N.lxor (N.land x y) (N.land (not32 x) z).
Definition Maj (x y z : N) : N :=
  N.lxor (N.lxor (N.land x y) (N.land x z)) (N.land y z).
Definition Sigma0 (x : N) : N :=
  N.lxor (N.lxor (rotr 2 x) (rotr 13 x)) (rotr 22 x).
Definition Sigma1 (x : N) : N :=
  N.lxor (N.lxor (rotr 6 x) (rotr 11 x)) (rotr 25 x).
Definition sigma0 (x : N) : N :=
  N.lxor (N.lxor (rotr 7 x) (rotr 18 x)) (shr 3 x).
Definition sigma1 (x : N) : N :=
  N.lxor (N.lxor (rotr 17 x) (rotr 19 x)) (shr 10 x).

(** The round constants and the initial hash value: the first 32 bits of
    the fractional parts of the cube roots of the first 64 primes, and of
    the square roots of the first 8. *)
Fixpoint primes (fuel : nat) (count : nat) (candidate : N) (found : list N)
  : list N :=
  match fuel, count with
  | O, _ | _, O => rev found
  | S fuel', S count' =>
      if forallb (fun p => negb (candidate mod p =? 0)%N) found
      then primes fuel' count' (candidate + 1) (candidate :: found)
      else primes fuel' count (candidate + 1) found
  end.

(** The largest [r] below [2 ^ bits] with [r ^ 3 <= x]. *)
Fixpoint cube_root (bits : nat) (x r : N) : N :=
  match bits with
  | O => r
  | S bits' =>
      let r' := N.lor r (N.shiftl 1 (N.of_nat bits')) in
      cube_root bits' x (if (r' * r' * r' <=? x)%N then r' else r)
  end.

Definition K : list N :=
  Eval vm_compute in
    map (fun p => w32 (cube_root 40 (N.shiftl p 96) 0)) (primes 400 64 2 []).

Definition H0 : list N :=
  Eval vm_compute in
    map (fun p => w32 (N.sqrt (N.shiftl p 64))) (primes 400 8 2 []).

(** Padding: 0x80, zeros up to 56 modulo 64, the bit length on 8 bytes. *)
Definition be_bytes (len : nat) (x : N) : list N :=
  map (fun i => N.land (N.shiftr x (8 * N.of_nat i)) 0xFF) (rev (seq 0 len)).

Definition pad (msg : list N) : list N :=
  let n := length msg in
  let zeros := (64 - (n + 9) mod 64) mod 64 in
  msg ++ [0x80%N] ++ repeat 0%N zeros ++ be_bytes 8 (8 * N.of_nat n).

Definition be_word (bs : list N) : N :=
  fold_left (fun acc b => N.lor (N.shiftl acc 8) b) bs 0%N.

Fixpoint chunks {A} (len count : nat) (l : list A) : list (list A) :=
  match count with
  | O => []
  | S count' => take len l :: chunks len count' (drop len l)
  end.

(** The message schedule, most recent word first. *)
Fixpoint schedule (n : nat) (w : list N) : list N :=
  match n with
  | O => w
  | S n' =>
      let wt :=
        add32 (add32 (sigma1 (nth 1 w 0%N)) (nth 6 w 0%N))
              (add32 (sigma0 (nth 14 w 0%N)) (nth 15 w 0%N)) in
      schedule n' (wt :: w)
  end.

Definition round (st : list N) (kw : N * N) : list N :=
  match st with
  | [a; b; c; d; e; f; g; h] =>
      let t1 :=
        add32 (add32 (add32 h (Sigma1 e)) (add32 (Ch e f g) (fst kw)))
              (snd kw) in
      let t2 := add32 (Sigma0 a) (Maj a b c) in
      [add32 t1 t2; a; b; c; add32 d t1; e; f; g]
  | _ => st
  end.

Definition compress (h : list N) (block : list N) : list N :=
  let w := rev (schedule 48 (rev (map be_word (chunks 4 16 block)))) in
  let st := fold_left round (combine K w) h in
  map (fun p => add32 (fst p) (snd p)) (combine h st).

Definition digest (msg : list byte) : list byte :=
  let bytes := pad (map Byte.to_N msg) in
  let h := fold_left compress (chunks 64 (length bytes / 64) bytes) H0 in
  map (fun b => default x00 (Byte.of_N b)) (concat (map (be_bytes 4) h)).

End SHA256.

(** [hash.digest("hex")]: two lowercase hexadecimal digits per byte. *)
Definition hex_digit (n : N) : ascii :=
  default "0"%char (String.get (N.to_nat n) "0123456789abcdef").

Fixpoint hex (bs : list byte) : string :=
  match bs with
  | [] => ""
  | b :: bs' =>
      let n := Byte.to_N b in
      String (hex_digit (n / 16)) (String (hex_digit (n mod 16)) (hex bs'))
  end.

(** ** [String.prototype.trim]

    The code points of WhiteSpace and LineTerminator, in UTF-8: U+0009 to
    U+000D, U+0020, U+00A0, U+1680, U+2000 to U+200A, U+2028, U+2029,
    U+202F, U+205F, U+3000 and U+FEFF. *)
Definition whiteSpace : list (list byte) :=
  [ [x09]; [x0a]; [x0b]; [x0c]; [x0d]; [x20]; [xc2; xa0]; [xe1; x9a; x80];
    [xe2; x80; x80]; [xe2; x80; x81]; [xe2; x80; x82]; [xe2; x80; x83];
    [xe2; x80; x84]; [xe2; x80; x85]; [xe2; x80; x86]; [xe2; x80; x87];
    [xe2; x80; x88]; [xe2; x80; x89]; [xe2; x80; x8a]; [xe2; x80; xa8];
    [xe2; x80; xa9]; [xe2; x80; xaf]; [xe2; x81; x9f]; [xe3; x80; x80];
    [xef; xbb; xbf] ].

Fixpoint strip_prefix (pre l : list byte) : option (list byte) :=
  match pre, l with
  | [], _ => Some l
  | a :: pre', b :: l' => if Byte.eqb a b then strip_prefix pre' l' else None
  | _ :: _, [] => None
  end.

(** The rest of [l] after one leading character out of [ws], if any. *)
Fixpoint strip_one (ws : list (list byte)) (l : list byte)
  : option (list byte) :=
  match ws with
  | [] => None
  | w :: ws' =>
      match strip_prefix w l with
      | Some l' => Some l'
      | None => strip_one ws' l
      end
  end.

Fixpoint strip_all (ws : list (list byte)) (fuel : nat) (l : list byte)
  : list byte :=
  match fuel with
  | O => l
  | S fuel' =>
      match strip_one ws l with
      | Some l' => strip_all ws fuel' l'
      | None => l
      end
  end.

Definition trimStart (l : list byte) : list byte :=
  strip_all whiteSpace (length l) l.

Definition trimEnd (l : list byte) : list byte :=
  rev (strip_all (map (@rev byte) whiteSpace) (length l) (rev l)).

Definition trim (s : string) : string :=
  utf8_decode (trimEnd (trimStart (utf8 s))).

(** ** [Array.prototype.sort(comparefn)]

    The sort is stable: elements that compare equal keep their order.  For
    a consistent comparator this fixes the result, which is computed here
    by insertion ([comparefn(x, y) <= 0] keeps [x] before [y]). *)
Fixpoint sort_insert {A} (comparefn : A -> A -> Z) (x : A) (l : list A)
  : list A :=
  match l with
  | [] => [x]
  | y :: l' =>
      if (comparefn x y <=? 0)%Z then x :: l
      else y :: sort_insert comparefn x l'
  end.

Fixpoint sort {A} (comparefn : A -> A -> Z) (l : list A) : list A :=
  match l with
  | [] => []
  | x :: l' => sort_insert comparefn x (sort comparefn l')
  end.

(** A consistent comparator in the sense of ECMAScript: the sign of the
    result flips with the arguments, and "not after" is transitive.  It
    orders the classes of elements that compare equal. *)
Record consistent {A} (comparefn : A -> A -> Z) : Prop := Consistent {
  consistent_sign : forall a b, (comparefn a b < 0 <-> 0 < comparefn b a)%Z;
  consistent_trans :
    forall a b c,
      (comparefn a b <= 0 -> comparefn b c <= 0 -> comparefn a c <= 0)%Z
}.

Definition notAfter {A} (comparefn : A -> A -> Z) (a b : A) : Prop :=
  (comparefn a b <= 0)%Z.

(** The comparator returns 0 on no two distinct strings of the list. *)
Definition separates (comparefn : string -> string -> Z) (l : list string)
  : bool :=
  forallb (fun a =>
    forallb (fun b => negb (comparefn a b =? 0)%Z || String.eqb a b) l) l.

(** ** String helpers *)

(** [s.split(c)] for a one-character separator. *)
Fixpoint split (c : ascii) (s : string) : list string :=
  match s with
  | "" => [""]
  | String a s' =>
      if Ascii.eqb a c then "" :: split c s'
      else match split c s' with
           | w :: ws => String a w :: ws
           | [] => [String a ""]
           end
  end.

(** [parts.join(glue)] *)
Definition join (glue : string) (parts : list string) : string :=
  String.concat glue parts.

Fixpoint string_strip_prefix (pre s : string) : option string :=
  match pre, s with
  | "", _ => Some s
  | String a pre', String b s' =>
      if Ascii.eqb a b then string_strip_prefix pre' s' else None
  | String _ _, "" => None
  end.

(** [s.includes(sub)] *)
Fixpoint includes (s sub : string) : bool :=
  String.prefix sub s ||
  match s with
  | "" => false
  | String _ s' => includes s' sub
  end.

(** [s.toLowerCase()] on the letters A to Z.  The script only asks whether
    the result includes "pnpm", and no other character lowers to one of
    these three letters. *)
Definition lower (c : ascii) : ascii :=
  let n := N_of_ascii c in
  if ((65 <=? n) && (n <=? 90))%N then ascii_of_N (n + 32) else c.

Fixpoint toLowerCase (s : string) : string :=
  match s with
  | "" => ""
  | String c s' => String (lower c) (toLowerCase s')
  end.

(** [String(err)] *)
Definition describe (code : string) : string :=
  if String.eqb code "ENOENT" then "no such file or directory"
  else if String.eqb code "EISDIR" then "illegal operation on a directory"
  else if String.eqb code "ENOTDIR" then "not a directory"
  else "unknown error".

Definition String_ (e : error) : string :=
  match e with
  | SystemError code syscall path =>
      "Error: " +:+ code +:+ ": " +:+ describe code +:+ ", " +:+ syscall +:+
      match path with
      | Some p => " '" +:+ p +:+ "'"
      | None => ""
      end
  | SpawnError message => message
  | CommandFailed args => "Error: Command failed: pnpm " +:+ join " " args
  end.

(** ** Effects of a run *)

Inductive event :=
| Log (line : string)
| LogError (line : string)
| Spawn (command : string) (args : list string)
| WriteFile (path : string) (data : string).

Record world := World { w_fs : filesystem; w_trace : list event }.

Definition emit (ev : event) (w : world) : world :=
  World (w_fs w) (w_trace w ++ [ev]).

(** The [res] of [spawnSync]: [res.error] (absent when the process was
    started) and [res.status] ([null] when a signal ended the process). *)
Record spawn_result :=
  SpawnResult { res_error : option string; res_status : option Z }.

(** The external processes started, and the lines of the error console,
    in a trace. *)
Definition spawns (trace : list event) : list (string * list string) :=
  omap (fun ev => match ev with
                  | Spawn command args => Some (command, args)
                  | _ => None
                  end) trace.

Definition errorLines (trace : list event) : list string :=
  omap (fun ev => match ev with
                  | LogError line => Some line
                  | _ => None
                  end) trace.

(** A stage succeeded: the process was started and exited with status 0. *)
Definition succeeded (res : spawn_result) : bool :=
  match res_error res, res_status res with
  | None, Some 0%Z => true
  | _, _ => false
  end.

(** The three [console.error] lines of the handler at the end of the
    script. *)
Definition diagnostic (err : error) : list event :=
  [ LogError "A2UI bundling failed. Re-run with: pnpm canvas:a2ui:bundle";
    LogError "If this persists, verify pnpm deps and try again.";
    LogError (String_ err) ].

(** Lowercase hexadecimal digits, and strings made of them. *)
Definition isLowerHex (c : ascii) : bool :=
  let n := N_of_ascii c in
  (((48 <=? n) && (n <=? 57)) || ((97 <=? n) && (n <=? 102)))%N.

Fixpoint allChars (P : ascii -> bool) (s : string) : bool :=
  match s with
  | "" => true
  | String c s' => P c && allChars P s'
  end.

(** No 0x00 byte in the path or in the contents of an entry. *)
Definition nulFree (entry : string * list byte) : bool :=
  forallb (fun b => negb (Byte.eqb b x00)) (utf8 (fst entry)) &&
  forallb (fun b => negb (Byte.eqb b x00)) (snd entry).

(** A string in which no whitespace character occurs. *)
Fixpoint occurs (w l : list byte) : bool :=
  match strip_prefix w l with
  | Some _ => true
  | None =>
      match l with
      | [] => false
      | _ :: l' => occurs w l'
      end
  end.

Definition whitespaceFree (s : string) : bool :=
  forallb (fun w => negb (occurs w (utf8 s))) whiteSpace.

(** What [runPnpm] throws for a stage that did not succeed. *)
Definition stageError (args : list string) (res : spawn_result) : error :=
  match res_error res with
  | Some message => SpawnError message
  | None => CommandFailed args
  end.

(** The Fingerprint of the design document, in its words: the lowercase
    hexadecimal SHA-256 digest of the concatenation, over the files in
    order, of path, 0x00, contents, 0x00. *)
Definition specEncoding (set : list (string * list byte)) : list byte :=
  flat_map (fun entry => utf8 (fst entry) ++ [x00] ++ snd entry ++ [x00]) set.

Definition specFingerprint (set : list (string * list byte)) : string :=
  hex (SHA256.digest (specEncoding set)).

(** ** The script *)

Section Script.

(** [path.sep]: "/" on POSIX, "\" on win32. *)
Variable sep : ascii.
(** The checkout: [path.resolve(path.dirname(<this file>), "..")]. *)
Variable repoRoot : string.
(** [a.localeCompare(b)]: negative, zero or positive. *)
Variable localeCompare : string -> string -> Z.
(** [process.env.npm_execpath], [process.execPath], [process.platform]. *)
Variable npm_execpath : option string.
Variable execPath : string.
Variable platform : string.
(** [spawnSync(command, args, { cwd: repoRoot, stdio: "inherit" })]: the
    external process answers with a result and leaves a filesystem. *)
Variable spawnSync :
  string -> list string -> filesystem -> spawn_result * filesystem.

(** [path.join(a, b)] for a normalised path [a] and a plain name [b], the
    only way the script calls it. *)
Definition path_join (a b : string) : string := a +:+ String sep b.

Definition path_join_all (a : string) (names : list string) : string :=
  fold_left path_join names a.

(** [path.relative(from, to)] for a path [to] below [from], which is
    where the walked files are; any other [to] is returned as it is. *)
Definition relative (from to : string) : string :=
  match string_strip_prefix (from +:+ String sep "") to with
  | Some rest => rest
  | None => to
  end.

Definition dirname (p : string) : string :=
  join (String sep "") (removelast (split sep p)).

Definition basename (p : string) : string := List.last (split sep p) "".

(** [fs.writeFile(p, data, "utf8")]: creates or replaces the file in an
    existing directory. *)
Definition writeFile (fs : filesystem) (p : string) (data : string)
  : result filesystem :=
  match fs !! p with
  | Some (Dir _) => Throw (SystemError "EISDIR" "open" (Some p))
  | _ =>
      match fs !! dirname p with
      | Some (Dir entries) =>
          let entries' :=
            if bool_decide (basename p ∈ entries) then entries
            else entries ++ [basename p] in
          Ok (<[p := File (utf8 data)]> (<[dirname p := Dir entries']> fs))
      | Some (File _) => Throw (SystemError "ENOTDIR" "open" (Some p))
      | None => Throw (SystemError "ENOENT" "open" (Some p))
      end
  end.

Definition hashFile : string :=
  path_join_all repoRoot ["src"; "canvas-host"; "a2ui"; ".bundle.hash"].
Definition outputFile : string :=
  path_join_all repoRoot ["src"; "canvas-host"; "a2ui"; "a2ui.bundle.js"].
Definition a2uiRendererDir : string :=
  path_join_all repoRoot ["vendor"; "a2ui"; "renderers"; "lit"].
Definition a2uiAppDir : string :=
  path_join_all repoRoot
    ["apps"; "shared"; "OpenClawKit"; "Tools"; "CanvasA2UI"].

Definition inputPaths : list string :=
  [ path_join repoRoot "package.json";
    path_join repoRoot "pnpm-lock.yaml";
    a2uiRendererDir;
    a2uiAppDir ].

(** [async function walk(entryPath, out)] *)
Fixpoint walk (fuel : nat) (fs : filesystem) (entryPath : string)
    (out : list string) : result (list string) :=
  match fuel with
  | O => Diverge
  | S fuel' =>
      let* st := stat fs entryPath in
      if isDirectory st then
        let* entries := readdir fs entryPath in
        for_of entries
          (fun entry out => walk fuel' fs (path_join entryPath entry) out)
          out
      else Ok (out ++ [entryPath])
  end.

(** [function normalize(p)] *)
Definition normalize (p : string) : string := join "/" (split sep p).

(** The three steps of [computeHash]: enumerate, sort, hash. *)
Definition enumerate (inputs : list string) (fuel : nat) (fs : filesystem)
  : result (list string) :=
  for_of inputs (fun input files => walk fuel fs input files) [].

Definition compareFiles (a b : string) : Z :=
  localeCompare (normalize a) (normalize b).

(** The bytes given to [hash.update] for one file, after those in [fed]. *)
Definition feed (fs : filesystem) (filePath : string) (fed : list byte)
  : result (list byte) :=
  let fed := fed ++ utf8 (normalize (relative repoRoot filePath)) in
  let fed := fed ++ [x00] in
  let* data := readFile fs filePath in
  let fed := fed ++ data in
  Ok (fed ++ [x00]).

(** Everything given to [hash.update] by the loop over [files]. *)
Definition hashInput (fs : filesystem) (files : list string)
  : result (list byte) :=
  for_of files (feed fs) [].

Definition hashFiles (fs : filesystem) (files : list string)
  : result string :=
  let* fed := hashInput fs files in
  Ok (hex (SHA256.digest fed)).

Definition computeHashOver (inputs : list string) (fuel : nat)
    (fs : filesystem) : result string :=
  let* files := enumerate inputs fuel fs in
  hashFiles fs (sort compareFiles files).

(** [async function computeHash()] *)
Definition computeHash : nat -> filesystem -> result string :=
  computeHashOver inputPaths.

(** [function runPnpm(args)] *)
Definition isProbablyPnpmExecPath : bool :=
  match npm_execpath with
  | Some npmExecPath =>
      negb (String.length npmExecPath =? 0) &&
      includes (toLowerCase npmExecPath) "pnpm"
  | None => false
  end.

Definition command : string :=
  if isProbablyPnpmExecPath then execPath
  else if String.eqb platform "win32" then "pnpm.cmd" else "pnpm".

Definition fullArgs (args : list string) : list string :=
  match npm_execpath with
  | Some npmExecPath =>
      if isProbablyPnpmExecPath then npmExecPath :: args else args
  | None => args
  end.

Definition runPnpm (args : list string) (w : world) : result unit * world :=
  let (res, fs') := spawnSync command (fullArgs args) (w_fs w) in
  let w' := World fs' (w_trace w ++ [Spawn command (fullArgs args)]) in
  match res_error res with
  | Some err => (Throw (SpawnError err), w')
  | None =>
      match res_status res with
      | Some 0%Z => (Ok tt, w')
      | _ => (Throw (CommandFailed args), w')
      end
  end.

Definition tscArgs : list string :=
  ["-s"; "exec"; "tsc"; "-p"; path_join a2uiRendererDir "tsconfig.json"].
Definition rolldownArgs : list string :=
  ["-s"; "exec"; "rolldown"; "-c";
   path_join a2uiAppDir "rolldown.config.mjs"].

(** The tail of [main]: both stages, then the cache record. *)
Definition build (currentHash : string) (w : world) : result unit * world :=
  match runPnpm tscArgs w with
  | (Ok _, w1) =>
      match runPnpm rolldownArgs w1 with
      | (Ok _, w2) =>
          let data := currentHash +:+ String "010" "" in
          match writeFile (w_fs w2) hashFile data with
          | Ok fs' =>
              (Ok tt, World fs' (w_trace w2 ++ [WriteFile hashFile data]))
          | Throw e => (Throw e, w2)
          | Diverge => (Diverge, w2)
          end
      | failed => failed
      end
  | failed => failed
  end.

(** The stored fingerprint and the test of lines 94 to 100: [Ok true]
    when the bundle is up to date. *)
Definition upToDate (fs : filesystem) (currentHash : string) : result bool :=
  if exists_ fs hashFile then
    let* data := readFile fs hashFile in
    let previousHash := trim (utf8_decode data) in
    Ok (String.eqb previousHash currentHash && exists_ fs outputFile)
  else Ok false.

(** [async function main()] *)
Definition main (fuel : nat) (w : world) : result unit * world :=
  if negb (exists_ (w_fs w) a2uiRendererDir)
     || negb (exists_ (w_fs w) a2uiAppDir)
  then (Ok tt, emit (Log "A2UI sources missing; keeping prebuilt bundle.") w)
  else
    match computeHash fuel (w_fs w) with
    | Ok currentHash =>
        match upToDate (w_fs w) currentHash with
        | Ok true => (Ok tt, emit (Log "A2UI bundle up to date; skipping.") w)
        | Ok false => build currentHash w
        | Throw e => (Throw e, w)
        | Diverge => (Diverge, w)
        end
    | Throw e => (Throw e, w)
    | Diverge => (Diverge, w)
    end.

(** The script run directly: [main().catch(...)].  The exit code is 0
    when [main] returns and 1 from the handler; [None] when the run does
    not end within the fuel. *)
Definition script (fuel : nat) (w : world) : option Z * world :=
  match main fuel w with
  | (Ok _, w') => (Some 0%Z, w')
  | (Throw err, w') =>
      (Some 1%Z, World (w_fs w') (w_trace w' ++ diagnostic err))
  | (Diverge, w') => (None, w')
  end.

(** The Cache State Store of the design document, [read()]: the stored
    string without surrounding whitespace, or nothing when there is no
    readable record. *)
Definition storedFingerprint (fs : filesystem) : option string :=
  match fs !! hashFile with
  | Some (File data) => Some (trim (utf8_decode data))
  | _ => None
  end.

(** The File Set of the design document for a list of walked files: the
    normalized relative path and the contents of each. *)
Definition content (fs : filesystem) (p : string) : list byte :=
  match fs !! p with
  | Some (File data) => data
  | _ => []
  end.

Definition fileSet (fs : filesystem) (files : list string)
  : list (string * list byte) :=
  map (fun p => (normalize (relative repoRoot p), content fs p)) files.

End Script.

(** ** A concrete platform and checkouts, for running the script *)

Module Posix.

Definition sep : ascii := "/"%char.
Definition repoRoot : string := "/repo".

(** Comparison by bytes, as a three-way result. *)
Definition byteCompare (a b : string) : Z :=
  match String.compare a b with
  | Lt => (-1)%Z
  | Eq => 0%Z
  | Gt => 1%Z
  end.

(** A comparator that honours canonical equivalence, as ECMAScript
    requires of [localeCompare]: U+0065 U+0301 is composed to U+00E9
    before the bytes are compared, so the two spellings compare equal. *)
Fixpoint compose (s : string) : string :=
  match s with
  | String "e" (String "204" (String "129" s')) =>
      String "195" (String "169" (compose s'))
  | String c s' => String c (compose s')
  | "" => ""
  end.

Definition canonicalCompare (a b : string) : Z :=
  byteCompare (compose a) (compose b).

(** External tools: one that succeeds and leaves the bundle behind, one
    that exits with status 1, one that cannot be started. *)
Definition bundle : string := "/repo/src/canvas-host/a2ui/a2ui.bundle.js".

Definition toolsSucceed (command : string) (args : list string)
    (fs : filesystem) : spawn_result * filesystem :=
  (SpawnResult None (Some 0%Z),
   if bool_decide ("rolldown" ∈ args) then <[bundle := File [x41]]> fs
   else fs).

Definition toolsFail (command : string) (args : list string)
    (fs : filesystem) : spawn_result * filesystem :=
  (SpawnResult None (Some 1%Z), fs).

Definition bundlerFails (command : string) (args : list string)
    (fs : filesystem) : spawn_result * filesystem :=
  if bool_decide ("rolldown" ∈ args) then (SpawnResult None (Some 1%Z), fs)
  else (SpawnResult None (Some 0%Z), fs).

Definition toolsMissing (command : string) (args : list string)
    (fs : filesystem) : spawn_result * filesystem :=
  (SpawnResult (Some "Error: spawnSync pnpm ENOENT") None, fs).

(** A checkout with both source roots, no cache record and no bundle. *)
Definition checkout : filesystem :=
  list_to_map
    [ ("/repo", Dir ["package.json"; "pnpm-lock.yaml"; "vendor"; "apps"; "src"]);
      ("/repo/package.json", File (utf8 "{}"));
      ("/repo/pnpm-lock.yaml", File (utf8 "lockfileVersion: 9"));
      ("/repo/vendor", Dir ["a2ui"]);
      ("/repo/vendor/a2ui", Dir ["renderers"]);
      ("/repo/vendor/a2ui/renderers", Dir ["lit"]);
      ("/repo/vendor/a2ui/renderers/lit", Dir ["tsconfig.json"; "src"]);
      ("/repo/vendor/a2ui/renderers/lit/tsconfig.json", File (utf8 "{}"));
      ("/repo/vendor/a2ui/renderers/lit/src", Dir ["index.ts"]);
      ("/repo/vendor/a2ui/renderers/lit/src/index.ts",
       File (utf8 "export {};"));
      ("/repo/apps", Dir ["shared"]);
      ("/repo/apps/shared", Dir ["OpenClawKit"]);
      ("/repo/apps/shared/OpenClawKit", Dir ["Tools"]);
      ("/repo/apps/shared/OpenClawKit/Tools", Dir ["CanvasA2UI"]);
      ("/repo/apps/shared/OpenClawKit/Tools/CanvasA2UI",
       Dir ["rolldown.config.mjs"]);
      ("/repo/apps/shared/OpenClawKit/Tools/CanvasA2UI/rolldown.config.mjs",
       File (utf8 "export default {};"));
      ("/repo/src", Dir ["canvas-host"]);
      ("/repo/src/canvas-host", Dir ["a2ui"]);
      ("/repo/src/canvas-host/a2ui", Dir []) ].

(** The checkout with other files in the renderer directory, listed by
    [readdir] in the order given. *)
Definition lit : string := "/repo/vendor/a2ui/renderers/lit".

Definition withRenderer (files : list (string * list byte)) : filesystem :=
  <[lit := Dir (map fst files)]>
    (list_to_map
       (map (fun f => (lit +:+ "/" +:+ fst f, File (snd f))) files)
     ∪ checkout).

(** The two spellings of e with acute accent: U+00E9, and U+0065 U+0301. *)
Definition composed : string := String "195" (String "169" "").
Definition decomposed : string := String "e" (String "204" (String "129" "")).

Definition spelledOneWay : filesystem :=
  withRenderer [(composed, utf8 "1"); (decomposed, utf8 "2")].
Definition spelledOtherWay : filesystem :=
  <[lit := Dir [decomposed; composed]]> spelledOneWay.

(** One file with 0x00 bytes in it, against two files without. *)
Definition oneBinaryFile : filesystem :=
  withRenderer
    [("a", utf8 "x" ++ [x00] ++ utf8 "vendor/a2ui/renderers/lit/b" ++ [x00]
           ++ utf8 "y")].
Definition twoTextFiles : filesystem :=
  withRenderer [("a", utf8 "x"); ("b", utf8 "y")].

(** The example of the design document: a manifest "m" with bytes "A"
    and a directory "d" with the file "d/x" with bytes "B". *)
Definition example : filesystem :=
  list_to_map
    [ ("/repo", Dir ["m"; "d"]);
      ("/repo/m", File (utf8 "A"));
      ("/repo/d", Dir ["x"]);
      ("/repo/d/x", File (utf8 "B")) ].

(** The files of [spelledOneWay] and [spelledOtherWay] as enumerated. *)
Definition spelledFiles (first second : string) : list string :=
  [ "/repo/package.json"; "/repo/pnpm-lock.yaml";
    lit +:+ "/" +:+ first; lit +:+ "/" +:+ second;
    "/repo/apps/shared/OpenClawKit/Tools/CanvasA2UI/rolldown.config.mjs" ].

Definition run (tools : string -> list string -> filesystem ->
                        spawn_result * filesystem)
    (fuel : nat) (fs : filesystem) : option Z * world :=
  script sep repoRoot byteCompare None "/usr/bin/node" "linux" tools
    fuel (World fs []).

(** The checkout after a successful build. *)
Definition built : filesystem := w_fs (snd (run toolsSucceed 10 checkout)).

(** The collation of an Estonian locale on lowercase ASCII letters, where
    z comes between s and t: the letters are ranked, and the ranks are
    compared as bytes. *)
Definition estonianRank (c : ascii) : ascii :=
  let n := N_of_ascii c in
  if (n =? 122)%N then "t"%char
  else if ((116 <=? n) && (n <=? 121))%N then ascii_of_N (n + 1)
  else c.

Fixpoint estonianKey (s : string) : string :=
  match s with
  | "" => ""
  | String c s' => String (estonianRank c) (estonianKey s')
  end.

Definition estonianCompare (a b : string) : Z :=
  byteCompare (estonianKey a) (estonianKey b).

(** A renderer directory with the two files t.ts and z.ts, listed by
    [readdir] in one order and in the other. *)
Definition listed : filesystem :=
  withRenderer [("t.ts", utf8 "1"); ("z.ts", utf8 "2")].
Definition listedOtherWay : filesystem :=
  withRenderer [("z.ts", utf8 "2"); ("t.ts", utf8 "1")].

Definition listedFiles (first second : string) : list string :=
  [ "/repo/package.json"; "/repo/pnpm-lock.yaml";
    lit +:+ "/" +:+ first; lit +:+ "/" +:+ second;
    "/repo/apps/shared/OpenClawKit/Tools/CanvasA2UI/rolldown.config.mjs" ].

End Posix.


(** ** Notions used in the further properties *)

(** Every occurrence of the character [c] replaced by [d]. *)
Fixpoint replaceAll (c d : ascii) (s : string) : string :=
  match s with
  | "" => ""
  | String a s' => String (if Ascii.eqb a c then d else a) (replaceAll c d s')
  end.

(** The character [c] occurs in [s]. *)
Fixpoint hasChar (c : ascii) (s : string) : bool :=
  match s with
  | "" => false
  | String a s' => Ascii.eqb a c || hasChar c s'
  end.

(** ** The File Set of the design document

    A list of files of a checkout holds a File Set: every file lies in
    the checkout, and its entry has the path relative to the checkout,
    with slashes for the separators, and the contents of the file. *)
Definition holds (sep : ascii) (repoRoot : string) (fs : filesystem)
    (files : list string) (set : list (string * list byte)) : Prop :=
  Forall2
    (fun p entry =>
       exists rest,
         p = repoRoot +:+ String sep rest /\
         fst entry = replaceAll sep "/" rest /\
         fs !! p = Some (File (snd entry)))
    files set.

(** The comparator places the files of a checkout as it places their
    paths relative to the checkout: the part that all paths share does not
    decide.  Comparison by bytes does so, and so does a collation that
    compares element by element. *)
Definition ordersByRelativePath (comparefn : string -> string -> Z)
    (sep : ascii) (repoRoot : string) (files : list string) : Prop :=
  forall r r',
    repoRoot +:+ String sep r ∈ files ->
    repoRoot +:+ String sep r' ∈ files ->
    (comparefn (replaceAll sep "/" (repoRoot +:+ String sep r))
               (replaceAll sep "/" (repoRoot +:+ String sep r')) <=? 0)%Z =
    (comparefn (replaceAll sep "/" r) (replaceAll sep "/" r') <=? 0)%Z.

(** ** A second platform

    The checkout at C:, with the backslash for separator: the same files
    with the same contents, at the paths of that platform. *)
Module Win32.

Definition sep : ascii := "092"%char.
Definition repoRoot : string := "C:" +:+ String sep "repo".

(** The path on this platform of a path of the POSIX checkout. *)
Definition path (p : string) : string := "C:" +:+ replaceAll "/" sep p.

Definition mirror (fs : filesystem) : filesystem :=
  list_to_map (map (fun kv => (path (fst kv), snd kv)) (map_to_list fs)).

Definition listed : filesystem := mirror Posix.listedOtherWay.

Definition listedFiles : list string :=
  map path (Posix.listedFiles "z.ts" "t.ts").

End Win32.

(** * Properties *)

(** ** SHA-256 on the test vectors of FIPS 180-4 *)

Example sha256_abc :
  hex (SHA256.digest (utf8 "abc")) =
    "ba7816bf8f01cfea414140de5dae2223b00361a396177a9cb410ff61f20015ad".
Proof. vm_compute. reflexivity. Qed.

Example sha256_two_blocks :
  hex (SHA256.digest
         (utf8 "abcdbcdecdefdefgefghfghighijhijkijkljklmklmnlmnomnopnopq")) =
    "248d6a61d20638b8e5c026930c3e6039a33ce45964ff2167f6ecedd419db06c1".
Proof. vm_compute. reflexivity. Qed.

(** ** Sorting with a comparator *)

Section Sorting.

Context {A : Type} (comparefn : A -> A -> Z).

Lemma sort_insert_Permutation (x : A) (l : list A) :
  Permutation (sort_insert comparefn x l) (x :: l).
Proof.
  induction l as [|y l IH]; simpl.
  - reflexivity.
  - destruct (comparefn x y <=? 0)%Z.
    + reflexivity.
    + rewrite IH. apply perm_swap.
Qed.

Lemma sort_Permutation (l : list A) : Permutation (sort comparefn l) l.
Proof.
  induction l as [|x l IH]; simpl.
  - reflexivity.
  - rewrite sort_insert_Permutation. by apply perm_skip.
Qed.

Hypothesis Hconsistent : consistent comparefn.

Lemma notAfter_total (a b : A) :
  notAfter comparefn a b \/ notAfter comparefn b a.
Proof.
  unfold notAfter. destruct (Z_le_gt_dec (comparefn a b) 0%Z) as [H|H].
  - by left.
  - right. apply Z.gt_lt, (consistent_sign _ Hconsistent) in H. lia.
Qed.

Lemma notAfter_both (a b : A) :
  notAfter comparefn a b -> notAfter comparefn b a -> comparefn a b = 0%Z.
Proof.
  unfold notAfter. intros Hab Hba.
  destruct (Z.eq_dec (comparefn a b) 0%Z) as [H|H]; [exact H|].
  assert (comparefn a b < 0)%Z as Hlt by lia.
  apply (consistent_sign _ Hconsistent) in Hlt. lia.
Qed.

Lemma sort_insert_StronglySorted (x : A) (l : list A) :
  StronglySorted (notAfter comparefn) l ->
  StronglySorted (notAfter comparefn) (sort_insert comparefn x l).
Proof.
  induction 1 as [|y l Hsorted IH Hall]; simpl.
  - repeat constructor.
  - destruct (comparefn x y <=? 0)%Z eqn:Hxy.
    + apply Z.leb_le in Hxy. constructor.
      * by constructor.
      * constructor; [exact Hxy|].
        eapply List.Forall_impl; [|exact Hall].
        intros z Hyz. eapply (consistent_trans _ Hconsistent); eauto.
    + apply Z.leb_gt in Hxy. constructor; [exact IH|].
      rewrite sort_insert_Permutation. constructor; [|exact Hall].
      destruct (notAfter_total y x) as [H|H]; [exact H|].
      unfold notAfter in H. lia.
Qed.

Lemma sort_StronglySorted (l : list A) :
  StronglySorted (notAfter comparefn) (sort comparefn l).
Proof.
  induction l as [|x l IH]; simpl.
  - constructor.
  - by apply sort_insert_StronglySorted.
Qed.

(** Two sorted arrangements of the same elements are equal when no two
    distinct elements compare equal. *)
Lemma sorted_unique (l1 : list A) :
  forall l2 : list A,
    StronglySorted (notAfter comparefn) l1 ->
    StronglySorted (notAfter comparefn) l2 ->
    Permutation l1 l2 ->
    (forall a b, a ∈ l1 -> b ∈ l1 -> comparefn a b = 0%Z -> a = b) ->
    l1 = l2.
Proof.
  induction l1 as [|x l1 IH]; intros l2 Hs1 Hs2 Hperm Hsep.
  - apply Permutation_nil in Hperm. by subst.
  - destruct l2 as [|y l2].
    { symmetry in Hperm. by apply Permutation_nil in Hperm. }
    apply StronglySorted_inv in Hs1 as [Hs1 Hx].
    apply StronglySorted_inv in Hs2 as [Hs2 Hy].
    assert (x = y) as <-.
    { assert (y ∈ x :: l1) as Hyin by (rewrite Hperm; left).
      assert (x ∈ y :: l2) as Hxin by (rewrite <- Hperm; left).
      apply elem_of_cons in Hyin as [->|Hyin]; [reflexivity|].
      apply elem_of_cons in Hxin as [->|Hxin]; [reflexivity|].
      rewrite List.Forall_forall in Hx, Hy.
      apply Hsep; [left | by right |].
      apply notAfter_both.
      - apply Hx. by apply list_elem_of_In.
      - apply Hy. by apply list_elem_of_In. }
    f_equal. apply IH; try assumption.
    + by apply Permutation_cons_inv in Hperm.
    + intros a b Ha Hb. apply Hsep; by right.
Qed.

Lemma sort_unique (l l' : list A) :
  (forall a b, a ∈ l -> b ∈ l -> comparefn a b = 0%Z -> a = b) ->
  Permutation l l' ->
  sort comparefn l = sort comparefn l'.
Proof.
  intros Hsep Hperm. apply sorted_unique.
  - apply sort_StronglySorted.
  - apply sort_StronglySorted.
  - by rewrite !sort_Permutation.
  - intros a b Ha Hb. rewrite sort_Permutation in Ha, Hb. by apply Hsep.
Qed.

End Sorting.

(** Sorting commutes with a function that carries one comparator to the
    other. *)
Lemma sort_insert_map {A B} (f : A -> B) (c : A -> A -> Z) (c' : B -> B -> Z)
    (x : A) (l : list A) :
  (forall y, In y l -> (c x y <=? 0)%Z = (c' (f x) (f y) <=? 0)%Z) ->
  map f (sort_insert c x l) = sort_insert c' (f x) (map f l).
Proof.
  induction l as [|y l IH]; intros H; simpl; [reflexivity|].
  rewrite <- (H y) by (by left).
  destruct (c x y <=? 0)%Z; simpl; [reflexivity|].
  f_equal. apply IH. intros z Hz. apply H. by right.
Qed.

Lemma sort_map {A B} (f : A -> B) (c : A -> A -> Z) (c' : B -> B -> Z)
    (l : list A) :
  (forall x y, In x l -> In y l ->
     (c x y <=? 0)%Z = (c' (f x) (f y) <=? 0)%Z) ->
  map f (sort c l) = sort c' (map f l).
Proof.
  induction l as [|x l IH]; intros H; simpl; [reflexivity|].
  rewrite (sort_insert_map f c c').
  - f_equal. apply IH. intros a b Ha Hb. apply H; by right.
  - intros y Hy. apply H; [by left|]. right.
    eapply Permutation_in; [apply sort_Permutation | exact Hy].
Qed.

Lemma StronglySorted_ext {A} (R R' : A -> A -> Prop) (l : list A) :
  (forall a b, R a b -> R' a b) -> StronglySorted R l -> StronglySorted R' l.
Proof.
  intros Himpl. induction 1 as [|x l Hsorted IH Hall]; constructor.
  - exact IH.
  - eapply List.Forall_impl; [|exact Hall]. intros b. apply Himpl.
Qed.

(** ** The fingerprint *)

Section Fingerprint.

Variable sep : ascii.
Variable repoRoot : string.
Variable localeCompare : string -> string -> Z.

Local Abbreviation compare := (compareFiles sep localeCompare).
Local Abbreviation entries := (fileSet sep repoRoot).
Local Abbreviation fed := (hashInput sep repoRoot).
Local Abbreviation byPath :=
  (fun e e' : string * list byte => localeCompare (fst e) (fst e')).

(** Whatever a loop body guarantees between the accumulator before and
    after, the loop guarantees. *)
Lemma for_of_Ok {X S} (body : X -> S -> result S) (R : S -> S -> Prop) :
  (forall acc, R acc acc) ->
  (forall a b c, R a b -> R b c -> R a c) ->
  (forall x acc acc', body x acc = Ok acc' -> R acc acc') ->
  forall (xs : list X) (acc acc' : S),
    for_of xs body acc = Ok acc' -> R acc acc'.
Proof.
  intros Hrefl Htrans Hbody. induction xs as [|x xs IH]; intros acc acc'; simpl.
  - intros [= <-]. apply Hrefl.
  - destruct (body x acc) as [acc1| |] eqn:Hx; simpl; try discriminate.
    intros Hrest. eapply Htrans; [eapply Hbody, Hx | eapply IH, Hrest].
Qed.

Lemma extends_refl fs out : extends fs out out.
Proof. exists []. split; [by rewrite app_nil_r | constructor]. Qed.

Lemma extends_trans fs a b c : extends fs a b -> extends fs b c -> extends fs a c.
Proof.
  intros (x & -> & Hx) (y & -> & Hy). exists (x ++ y).
  split; [by rewrite app_assoc | by apply Forall_app].
Qed.

Lemma walk_extends (fuel : nat) :
  forall (fs : filesystem) (p : string) (out out' : list string),
    walk sep fuel fs p out = Ok out' -> extends fs out out'.
Proof.
  induction fuel as [|fuel IH]; intros fs p out out'; simpl.
  - discriminate.
  - unfold stat, readdir.
    destruct (fs !! p) as [[data|names]|] eqn:Hp; simpl.
    + intros [= <-]. exists [p]. split; [reflexivity|].
      repeat constructor. by exists data.
    + apply (for_of_Ok _ (extends fs)).
      * apply extends_refl.
      * apply extends_trans.
      * intros x acc acc'. apply IH.
    + discriminate.
Qed.

Lemma enumerate_regular (inputs : list string) (fuel : nat)
    (fs : filesystem) (files : list string) :
  enumerate sep inputs fuel fs = Ok files -> Forall (isRegular fs) files.
Proof.
  intros Henum.
  assert (extends fs [] files) as (added & -> & Hadded); [|exact Hadded].
  revert Henum. unfold enumerate. apply (for_of_Ok _ (extends fs)).
  - apply extends_refl.
  - apply extends_trans.
  - intros x acc acc'. apply walk_extends.
Qed.

(** The loop over the files feeds the encoding of the design document. *)
Lemma feed_regular (fs : filesystem) (p : string) (acc : list byte) :
  isRegular fs p ->
  feed sep repoRoot fs p acc = Ok (acc ++ specEncoding (entries fs [p])).
Proof.
  intros [data Hp]. unfold feed, readFile, fileSet, content, specEncoding.
  simpl. rewrite !Hp. simpl. rewrite app_nil_r, <- !app_assoc. reflexivity.
Qed.

Lemma specEncoding_app (s1 s2 : list (string * list byte)) :
  specEncoding (s1 ++ s2) = specEncoding s1 ++ specEncoding s2.
Proof. unfold specEncoding. by rewrite flat_map_app. Qed.

Lemma for_of_feed (fs : filesystem) (files : list string) :
  forall acc,
    Forall (isRegular fs) files ->
    for_of files (feed sep repoRoot fs) acc =
      Ok (acc ++ specEncoding (entries fs files)).
Proof.
  induction files as [|p files IH]; intros acc Hreg; simpl.
  - by rewrite app_nil_r.
  - apply Forall_cons in Hreg as [Hp Hreg].
    rewrite (feed_regular _ _ _ Hp). simpl.
    rewrite (IH _ Hreg), <- app_assoc, app_nil_r. reflexivity.
Qed.

Lemma hashInput_regular (fs : filesystem) (files : list string) :
  Forall (isRegular fs) files ->
  fed fs files = Ok (specEncoding (entries fs files)).
Proof. intros Hreg. unfold hashInput. by rewrite for_of_feed. Qed.

(** The loop succeeds only on regular files. *)
Lemma hashInput_Ok (fs : filesystem) (files : list string) :
  forall acc bytes,
    for_of files (feed sep repoRoot fs) acc = Ok bytes ->
    Forall (isRegular fs) files.
Proof.
  induction files as [|p files IH]; intros acc bytes; simpl.
  - constructor.
  - unfold feed at 1, readFile.
    destruct (fs !! p) as [[data|names]|] eqn:Hp; simpl; try discriminate.
    intros Hrest. constructor; [by exists data | eapply IH, Hrest].
Qed.

(** Every enumerated file lies below the input it was reached from, and
    the inputs of the script lie in the checkout: [relative] is only asked
    for the rest of a path that starts with [repoRoot] and a separator. *)
Lemma string_app_cons (x : ascii) (a b : string) :
  String x a +:+ b = String x (a +:+ b).
Proof. reflexivity. Qed.

Lemma string_app_nil_r (a : string) : a +:+ "" = a.
Proof.
  induction a as [|x a IH]; [reflexivity|]. by rewrite string_app_cons, IH.
Qed.

Lemma string_app_assoc (a b c : string) : (a +:+ b) +:+ c = a +:+ (b +:+ c).
Proof.
  induction a as [|x a IH]; [reflexivity|]. by rewrite !string_app_cons, IH.
Qed.

Lemma below_trans (p q r : string) : below p q -> below q r -> below p r.
Proof.
  intros [x ->] [y ->]. exists (x +:+ y). apply string_app_assoc.
Qed.

Lemma walk_below (fuel : nat) :
  forall (fs : filesystem) (p : string) (out out' : list string),
    walk sep fuel fs p out = Ok out' ->
    exists added, out' = out ++ added /\ Forall (below p) added.
Proof.
  induction fuel as [|fuel IH]; intros fs p out out'; simpl.
  - discriminate.
  - unfold stat, readdir.
    destruct (fs !! p) as [[data|names]|] eqn:Hp; simpl.
    + intros [= <-]. exists [p]. split; [reflexivity|].
      repeat constructor. exists "". by rewrite string_app_nil_r.
    + apply (for_of_Ok _
               (fun out out' =>
                  exists added, out' = out ++ added /\ Forall (below p) added)).
      * intros acc. exists []. split; [by rewrite app_nil_r | constructor].
      * intros a b c (x & -> & Hx) (y & -> & Hy). exists (x ++ y).
        split; [by rewrite app_assoc | by apply Forall_app].
      * intros x acc acc' Hwalk.
        apply IH in Hwalk as (added & -> & Hadded).
        exists added. split; [reflexivity|].
        eapply List.Forall_impl; [|exact Hadded].
        intros q. apply below_trans. by exists (String sep x).
    + discriminate.
Qed.

(** [walk] looks only at the entry path and below it. *)
Lemma for_of_ext {X S} (body body' : X -> S -> result S) (xs : list X) :
  (forall x acc, In x xs -> body x acc = body' x acc) ->
  forall acc, for_of xs body acc = for_of xs body' acc.
Proof.
  induction xs as [|x xs IH]; intros Hext acc; simpl; [reflexivity|].
  rewrite (Hext x acc) by (by left).
  destruct (body' x acc); simpl; try reflexivity.
  apply IH. intros y acc' Hy. apply Hext. by right.
Qed.

Lemma walk_agree (fuel : nat) :
  forall (fs fs' : filesystem) (entryPath : string) (out : list string),
    (forall q, below entryPath q -> fs !! q = fs' !! q) ->
    walk sep fuel fs entryPath out = walk sep fuel fs' entryPath out.
Proof.
  induction fuel as [|fuel IH]; intros fs fs' p out Hagree; simpl;
    [reflexivity|].
  assert (fs !! p = fs' !! p) as Hp.
  { apply Hagree. exists "". by rewrite string_app_nil_r. }
  unfold stat, readdir. rewrite <- Hp.
  destruct (fs !! p) as [[data|names]|]; simpl; try reflexivity.
  apply for_of_ext. intros x acc _. apply IH.
  intros q Hq. apply Hagree. eapply below_trans; [|exact Hq].
  by exists (String sep x).
Qed.

(** The enumeration ends.  Every step into a directory leads to a longer
    path, and a filesystem holds finitely many paths: with more fuel than
    the filesystem has paths, and one unit more for a path that is
    missing, [walk] returns or throws. *)
Lemma string_length_app (a b : string) :
  String.length (a +:+ b) = String.length a + String.length b.
Proof.
  induction a as [|x a IH]; [reflexivity|].
  rewrite string_app_cons. simpl. by rewrite IH.
Qed.

Lemma for_of_ends {X S} (body : X -> S -> result S) (xs : list X) :
  (forall x acc, body x acc <> Diverge) ->
  forall acc, for_of xs body acc <> Diverge.
Proof.
  intros Hbody. induction xs as [|x xs IH]; intros acc; simpl; [discriminate|].
  destruct (body x acc) as [acc'| e |] eqn:Hx; simpl.
  - apply IH.
  - discriminate.
  - by apply Hbody in Hx.
Qed.

Lemma walk_ends (fuel : nat) :
  forall (fs : filesystem) (p : string) (out : list string),
    size fs + 1 < fuel -> walk sep fuel fs p out <> Diverge.
Proof.
  induction fuel as [|fuel IH]; intros fs p out Hfuel; [lia|].
  simpl. unfold stat, readdir.
  destruct (fs !! p) as [[data|names]|] eqn:Hp; simpl; try discriminate.
  apply for_of_ends. intros x acc.
  rewrite (walk_agree fuel fs (delete p fs)).
  - apply IH. rewrite map_size_delete, Hp. simpl.
    assert (size fs <> 0) by (apply map_size_ne_0_lookup_2 with p; eauto).
    lia.
  - intros q [rest ->]. symmetry. apply lookup_delete_ne.
    intros Heq. apply (f_equal String.length) in Heq.
    unfold path_join in Heq. rewrite !string_length_app in Heq.
    simpl in Heq. lia.
Qed.


Lemma string_strip_prefix_app (a b : string) :
  string_strip_prefix a (a +:+ b) = Some b.
Proof.
  induction a as [|x a IH]; [by destruct b|].
  rewrite string_app_cons. simpl. by rewrite Ascii.eqb_refl.
Qed.

Lemma relative_below (rest : string) :
  relative sep repoRoot (repoRoot +:+ String sep rest) = rest.
Proof.
  unfold relative.
  replace (repoRoot +:+ String sep rest)
    with ((repoRoot +:+ String sep "") +:+ rest)
    by (by rewrite string_app_assoc).
  by rewrite string_strip_prefix_app.
Qed.

Lemma relative_of_enumerated (fuel : nat) (fs : filesystem)
    (files : list string) :
  enumerate sep (inputPaths sep repoRoot) fuel fs = Ok files ->
  Forall (fun q => q = repoRoot +:+ String sep (relative sep repoRoot q)) files.
Proof.
  intros Henum.
  assert (exists added,
             files = [] ++ added /\
             Forall (fun q => exists rest, q = repoRoot +:+ String sep rest) added)
    as (added & -> & Hadded).
  { revert Henum. unfold enumerate, inputPaths, for_of.
    unfold a2uiRendererDir, a2uiAppDir, path_join_all, path_join. simpl.
    repeat (let H := fresh "Hwalk" in
            destruct (walk _ _ _ _ _) as [?| |] eqn:H; simpl;
            try discriminate; apply walk_below in H as (? & -> & ?)).
    intros [= <-]. eexists. rewrite <- !app_assoc. split; [reflexivity|].
    repeat (apply Forall_app; split);
      (eapply List.Forall_impl; [|eassumption]);
      intros q [rest ->]; rewrite ?string_app_assoc, ?string_app_cons;
      eauto. }
  simpl. eapply List.Forall_impl; [|exact Hadded].
  intros q [rest ->]. by rewrite relative_below.
Qed.

(** On POSIX, where the separator is the slash, [normalize] changes
    nothing. *)
Lemma split_not_nil (c : ascii) (s : string) : split c s <> [].
Proof.
  destruct s as [|a s]; simpl; [discriminate|].
  destruct (Ascii.eqb a c); [discriminate|]. by destruct (split c s).
Qed.

Lemma normalize_slash (p : string) : normalize "/" p = p.
Proof.
  unfold normalize, join. induction p as [|a p IH]; [reflexivity|]. simpl.
  pose proof (split_not_nil "/" p) as Hne.
  destruct (Ascii.eqb_spec a "/") as [->|Hneq].
  - destruct (split "/" p) as [|w ws]; [done|].
    cbn [String.concat]. cbn [String.concat] in IH. by rewrite IH.
  - destruct (split "/" p) as [|w ws]; [done|].
    destruct ws as [|w' ws]; cbn [String.concat] in IH |- *.
    + by rewrite IH.
    + by rewrite string_app_cons, IH.
Qed.

Lemma inputPaths_in_checkout :
  Forall (fun q => exists rest, q = repoRoot +:+ String sep rest)
    (inputPaths sep repoRoot).
Proof.
  unfold inputPaths, a2uiRendererDir, a2uiAppDir, path_join_all, path_join.
  simpl. repeat constructor; rewrite ?string_app_assoc, ?string_app_cons;
    eexists; reflexivity.
Qed.

(** [normalize] replaces every separator by a slash. *)
Lemma normalize_replaceAll (p : string) :
  normalize sep p = replaceAll sep "/" p.
Proof.
  unfold normalize, join. induction p as [|a p IH]; [reflexivity|]. simpl.
  pose proof (split_not_nil sep p) as Hne.
  destruct (Ascii.eqb a sep).
  - destruct (split sep p) as [|w ws]; [done|].
    cbn [String.concat] in IH |- *. by rewrite IH.
  - destruct (split sep p) as [|w ws]; [done|].
    destruct ws as [|w' ws]; cbn [String.concat] in IH |- *.
    + by rewrite IH.
    + by rewrite string_app_cons, IH.
Qed.

(** The File Set a list of files holds is the one the script feeds to
    the hash, and the files are regular files in the checkout. *)
Lemma holds_fileSet (fs : filesystem) (files : list string)
    (set : list (string * list byte)) :
  holds sep repoRoot fs files set ->
  set = entries fs files /\
  Forall (isRegular fs) files /\
  Forall (fun q => exists rest, q = repoRoot +:+ String sep rest) files.
Proof.
  unfold holds.
  induction 1 as [|p entry files set (rest & -> & Hpath & Hp) _
                    (IHset & IHreg & IHin)].
  - repeat split; constructor.
  - repeat split.
    + unfold fileSet. cbn [map]. f_equal; [|exact IHset].
      unfold content. rewrite relative_below, normalize_replaceAll, Hp, <- Hpath.
      by destruct entry.
    + constructor; [by exists (snd entry) | exact IHreg].
    + constructor; [by exists rest | exact IHin].
Qed.

Lemma fileSet_holds (fs : filesystem) (files : list string) :
  Forall (isRegular fs) files ->
  Forall (fun q => exists rest, q = repoRoot +:+ String sep rest) files ->
  holds sep repoRoot fs files (entries fs files).
Proof.
  unfold holds. induction files as [|p files IH]; intros Hreg Hin;
    [constructor|].
  apply Forall_cons in Hreg as [[data Hp] Hreg].
  apply Forall_cons in Hin as [[rest ->] Hin].
  unfold fileSet. cbn [map]. constructor; [|by apply IH].
  exists rest. cbn [fst snd]. unfold content.
  by rewrite relative_below, normalize_replaceAll, Hp.
Qed.

Lemma enumerate_inside (inputs : list string) (fuel : nat) (fs : filesystem)
    (files : list string) :
  Forall (fun q => exists rest, q = repoRoot +:+ String sep rest) inputs ->
  enumerate sep inputs fuel fs = Ok files ->
  Forall (fun q => exists rest, q = repoRoot +:+ String sep rest) files.
Proof.
  unfold enumerate. intros Hinputs.
  assert (forall acc,
             Forall (fun q => exists rest, q = repoRoot +:+ String sep rest)
               acc ->
             for_of inputs (fun input files => walk sep fuel fs input files)
               acc = Ok files ->
             Forall (fun q => exists rest, q = repoRoot +:+ String sep rest)
               files) as H.
  { induction inputs as [|input inputs IH]; intros acc Hacc; simpl.
    - by intros [= <-].
    - apply Forall_cons in Hinputs as [[rest ->] Hinputs].
      destruct (walk sep fuel fs (repoRoot +:+ String sep rest) acc)
        as [acc'| |] eqn:Hwalk; simpl; try discriminate.
      apply IH; [exact Hinputs|].
      apply walk_below in Hwalk as (added & -> & Hadded).
      apply Forall_app. split; [exact Hacc|].
      eapply List.Forall_impl; [|exact Hadded].
      intros q [r ->]. exists (rest +:+ r).
      by rewrite string_app_assoc, string_app_cons. }
  apply H. constructor.
Qed.

Lemma hex_digit_lower (b : byte) :
  isLowerHex (hex_digit (Byte.to_N b / 16)) = true /\
  isLowerHex (hex_digit (Byte.to_N b mod 16)) = true.
Proof. destruct b; vm_compute; split; reflexivity. Qed.

Lemma hex_lower (bs : list byte) : allChars isLowerHex (hex bs) = true.
Proof.
  induction bs as [|b bs IH]; [reflexivity|].
  destruct (hex_digit_lower b) as [Hhi Hlo].
  cbn [hex allChars]. by rewrite Hhi, Hlo, IH.
Qed.

(** C2. Once the enumeration of roots in the checkout has produced its
    list of files, the fingerprint is the SHA-256 digest, in lowercase
    hexadecimal, of the concatenation of path, 0x00, contents, 0x00 over
    the entries of a File Set that is pinned without the script's own
    helpers: the files are the enumerated ones in another order, which is
    sorted under the comparator applied to the paths with a slash for
    every separator; the path of an entry is what follows the checkout
    and a separator in the path of its file, with a slash for every
    separator, and its contents are the bytes of that file. *)
Theorem fingerprint_is_digest_of_sorted_entries (inputs : list string)
    (fuel : nat) (fs : filesystem) (files : list string) :
  Forall (fun input => exists rest, input = repoRoot +:+ String sep rest)
    inputs ->
  enumerate sep inputs fuel fs = Ok files ->
  exists (sorted : list string) (set : list (string * list byte)),
    Permutation sorted files /\
    (consistent localeCompare ->
     StronglySorted
       (fun a b =>
          (localeCompare (replaceAll sep "/" a) (replaceAll sep "/" b)
           <= 0)%Z)
       sorted) /\
    holds sep repoRoot fs sorted set /\
    computeHashOver sep repoRoot localeCompare inputs fuel fs =
      Ok (hex (SHA256.digest
                 (flat_map
                    (fun entry =>
                       utf8 (fst entry) ++ [x00] ++ snd entry ++ [x00])
                    set))) /\
    allChars isLowerHex
      (hex (SHA256.digest
              (flat_map
                 (fun entry => utf8 (fst entry) ++ [x00] ++ snd entry ++ [x00])
                 set))) = true.
Proof.
  intros Hinputs Henum.
  exists (sort compare files), (entries fs (sort compare files)).
  assert (Forall (isRegular fs) (sort compare files)) as Hreg.
  { pose proof (enumerate_regular _ _ _ _ Henum) as Hreg.
    rewrite List.Forall_forall in Hreg |- *. intros p Hp. apply Hreg.
    eapply Permutation_in; [apply sort_Permutation | exact Hp]. }
  split; [apply sort_Permutation|]. split.
  { intros Hcons.
    apply (StronglySorted_ext (notAfter compare)).
    - intros a b. unfold notAfter, compareFiles.
      by rewrite !normalize_replaceAll.
    - apply sort_StronglySorted. split; unfold compareFiles.
      + intros a b. apply (consistent_sign _ Hcons).
      + intros a b c. apply (consistent_trans _ Hcons). }
  split.
  { apply fileSet_holds; [exact Hreg|].
    pose proof (enumerate_inside _ _ _ _ Hinputs Henum) as Hin.
    rewrite List.Forall_forall in Hin |- *. intros p Hp. apply Hin.
    eapply Permutation_in; [apply sort_Permutation | exact Hp]. }
  split; [|apply hex_lower].
  unfold computeHashOver, hashFiles. rewrite Henum. simpl.
  by rewrite hashInput_regular.
Qed.

Lemma compare_consistent : consistent localeCompare -> consistent compare.
Proof.
  intros [Hsign Htrans]. split; unfold compareFiles.
  - intros a b. apply Hsign.
  - intros a b c. apply Htrans.
Qed.

Lemma byPath_consistent : consistent localeCompare -> consistent byPath.
Proof.
  intros [Hsign Htrans]. split.
  - intros a b. apply Hsign.
  - intros a b c. apply Htrans.
Qed.

Lemma hashInput_agree (fs fs' : filesystem) (files : list string) :
  (forall p, p ∈ files -> fs' !! p = fs !! p) ->
  fed fs files = fed fs' files.
Proof.
  unfold hashInput. generalize (@nil byte).
  induction files as [|p files IH]; intros acc Hagree; simpl; [reflexivity|].
  assert (feed sep repoRoot fs' p acc = feed sep repoRoot fs p acc) as ->.
  { unfold feed, readFile. rewrite Hagree by left. reflexivity. }
  destruct (feed sep repoRoot fs p acc); simpl; try reflexivity.
  apply IH. intros q Hq. apply Hagree. by right.
Qed.

(** The sort and hash steps on the files of one checkout, in terms of the
    File Set they hold: the digest of the File Set sorted by its own
    paths, when the comparator places the files as it places their
    relative paths. *)
Lemma hashFiles_of_set (fs : filesystem) (files : list string)
    (set : list (string * list byte)) :
  holds sep repoRoot fs files set ->
  ordersByRelativePath localeCompare sep repoRoot files ->
  hashFiles sep repoRoot fs (sort compare files) =
    Ok (specFingerprint (sort byPath set)).
Proof.
  intros Hholds Hkey.
  destruct (holds_fileSet _ _ _ Hholds) as (-> & Hreg & Hin).
  unfold hashFiles. rewrite hashInput_regular.
  - simpl. unfold specFingerprint. do 4 f_equal.
    unfold fileSet. apply sort_map. intros a b Ha Hb.
    rewrite List.Forall_forall in Hin.
    destruct (Hin a Ha) as [r ->]. destruct (Hin b Hb) as [r' ->].
    unfold compareFiles. cbn [fst].
    rewrite !relative_below, !normalize_replaceAll.
    apply Hkey; by apply list_elem_of_In.
  - rewrite List.Forall_forall in Hreg |- *. intros p Hp. apply Hreg.
    eapply Permutation_in; [apply sort_Permutation | exact Hp].
Qed.

Lemma compare_zero_sym (a b : string) :
  consistent localeCompare ->
  localeCompare a b = 0%Z -> localeCompare b a = 0%Z.
Proof.
  intros [Hsign _] Hzero.
  pose proof (Hsign a b) as Hab. pose proof (Hsign b a) as Hba. lia.
Qed.

Lemma set_separated (fs : filesystem) (files : list string)
    (set : list (string * list byte)) :
  consistent localeCompare ->
  holds sep repoRoot fs files set ->
  ordersByRelativePath localeCompare sep repoRoot files ->
  (forall a b, a ∈ files -> b ∈ files ->
     localeCompare (normalize sep a) (normalize sep b) = 0%Z -> a = b) ->
  forall e e', e ∈ set -> e' ∈ set -> byPath e e' = 0%Z -> e = e'.
Proof.
  intros Hcons Hholds Hkey Hsep e e' He He' Hzero.
  destruct (holds_fileSet _ _ _ Hholds) as (-> & _ & Hin).
  unfold fileSet in He, He'.
  apply list_elem_of_fmap in He as (a & -> & Ha).
  apply list_elem_of_fmap in He' as (b & -> & Hb).
  rewrite List.Forall_forall in Hin.
  destruct (Hin a (proj1 (list_elem_of_In _ _) Ha)) as [r Hr].
  destruct (Hin b (proj1 (list_elem_of_In _ _) Hb)) as [r' Hr'].
  subst a b. cbn [fst] in Hzero.
  rewrite !relative_below, !normalize_replaceAll in Hzero.
  pose proof (compare_zero_sym _ _ Hcons Hzero) as Hzero'.
  pose proof (Hkey r r' Ha Hb) as Hab. pose proof (Hkey r' r Hb Ha) as Hba.
  rewrite Hzero in Hab. rewrite Hzero' in Hba.
  apply Z.leb_le in Hab, Hba.
  rewrite <- !normalize_replaceAll in Hab, Hba.
  assert (repoRoot +:+ String sep r = repoRoot +:+ String sep r') as Heq.
  { apply Hsep; [exact Ha | exact Hb |].
    apply (notAfter_both compare (compare_consistent Hcons)); assumption. }
  by rewrite Heq.
Qed.

End Fingerprint.

(** ** Determinism of the fingerprint *)

Section Determinism.

Variable sep : ascii.
Variable repoRoot : string.
Variable localeCompare : string -> string -> Z.

Local Abbreviation compare := (compareFiles sep localeCompare).
Local Abbreviation byPath :=
  (fun e e' : string * list byte => localeCompare (fst e) (fst e')).

(** C1, amended.  For a consistent comparator that separates the files
    at hand (no two distinct ones compare equal after normalization),
    the sort and hash steps give the same digest for every permutation
    of the enumerated list, also across filesystems that hold the same
    contents at these paths; so two enumerations of the same files in
    different orders lead to the same fingerprint.  And the digest does
    not depend on the platform: a checkout with another separator, at
    another place, whose files hold the same File Set (the same relative
    paths with slashes, the same contents, in any order) has the same
    fingerprint, when the two processes compare with the same collation
    and this collation places the files of a checkout as it places their
    relative paths. *)
Theorem fingerprint_ignores_enumeration_order (fs fs' : filesystem)
    (files files' : list string) :
  consistent localeCompare ->
  (forall a b, a ∈ files -> b ∈ files ->
     localeCompare (normalize sep a) (normalize sep b) = 0%Z -> a = b) ->
  Permutation files files' ->
  (forall p, p ∈ files -> fs' !! p = fs !! p) ->
  hashFiles sep repoRoot fs (sort compare files) =
    hashFiles sep repoRoot fs' (sort compare files') /\
  (forall inputs fuel fuel',
     enumerate sep inputs fuel fs = Ok files ->
     enumerate sep inputs fuel' fs' = Ok files' ->
     computeHashOver sep repoRoot localeCompare inputs fuel fs =
       computeHashOver sep repoRoot localeCompare inputs fuel' fs') /\
  (forall (sep' : ascii) (repoRoot' : string) (other : filesystem)
          (others : list string) (set set' : list (string * list byte)),
     holds sep repoRoot fs files set ->
     holds sep' repoRoot' other others set' ->
     Permutation set set' ->
     ordersByRelativePath localeCompare sep repoRoot files ->
     ordersByRelativePath localeCompare sep' repoRoot' others ->
     hashFiles sep repoRoot fs (sort compare files) =
       hashFiles sep' repoRoot' other
         (sort (compareFiles sep' localeCompare) others) /\
     forall inputs inputs' fuel fuel',
       enumerate sep inputs fuel fs = Ok files ->
       enumerate sep' inputs' fuel' other = Ok others ->
       computeHashOver sep repoRoot localeCompare inputs fuel fs =
         computeHashOver sep' repoRoot' localeCompare inputs' fuel' other).
Proof.
  intros Hcons Hsep Hperm Hagree.
  assert (hashFiles sep repoRoot fs (sort compare files) =
          hashFiles sep repoRoot fs' (sort compare files')) as Heq.
  { rewrite <- (sort_unique compare (compare_consistent _ _ Hcons)
                  files files' Hsep Hperm).
    unfold hashFiles.
    rewrite (hashInput_agree sep repoRoot fs fs'); [reflexivity|].
    intros p Hp. apply Hagree. by rewrite sort_Permutation in Hp. }
  split; [exact Heq|]. split.
  { intros inputs fuel fuel' He He'. unfold computeHashOver.
    rewrite He, He'. exact Heq. }
  intros sep' repoRoot' other others set set' Hset Hset' Hsame Hkey Hkey'.
  assert (hashFiles sep repoRoot fs (sort compare files) =
          hashFiles sep' repoRoot' other
            (sort (compareFiles sep' localeCompare) others)) as Hacross.
  { rewrite (hashFiles_of_set sep repoRoot localeCompare fs files set Hset Hkey).
    rewrite (hashFiles_of_set sep' repoRoot' localeCompare other others set'
               Hset' Hkey').
    do 2 f_equal.
    apply (sort_unique byPath (byPath_consistent _ Hcons)); [|exact Hsame].
    exact (set_separated sep repoRoot localeCompare fs files set
             Hcons Hset Hkey Hsep). }
  split; [exact Hacross|].
  intros inputs inputs' fuel fuel' He He'. unfold computeHashOver.
  rewrite He, He'. exact Hacross.
Qed.


End Determinism.

(** ** The encoding fed to the hash *)

Section Encoding.

Lemma utf8_decode_utf8 (s : string) : utf8_decode (utf8 s) = s.
Proof. apply string_of_list_byte_of_string. Qed.

Lemma utf8_inj (a b : string) : utf8 a = utf8 b -> a = b.
Proof.
  intros H. rewrite <- (utf8_decode_utf8 a), <- (utf8_decode_utf8 b).
  by rewrite H.
Qed.

Lemma utf8_app (a b : string) : utf8 (a +:+ b) = utf8 a ++ utf8 b.
Proof.
  unfold utf8, list_byte_of_string.
  induction a as [|c a IH]; simpl; [reflexivity|]. by rewrite IH.
Qed.

Local Abbreviation notNul := (fun b : byte => negb (Byte.eqb b x00)).

(** The first 0x00 ends a part that has none. *)
Lemma nul_split (a : list byte) :
  forall a' r r',
    forallb notNul a = true -> forallb notNul a' = true ->
    a ++ x00 :: r = a' ++ x00 :: r' -> a = a' /\ r = r'.
Proof.
  induction a as [|c a IH]; intros [|c' a'] r r' Ha Ha' Heq; simpl in *.
  - by injection Heq as ->.
  - injection Heq as <- _. discriminate.
  - injection Heq as -> _. discriminate.
  - injection Heq as -> Heq.
    apply andb_true_iff in Ha as [_ Ha]. apply andb_true_iff in Ha' as [_ Ha'].
    destruct (IH _ _ _ Ha Ha' Heq) as [-> ->]. done.
Qed.

Lemma specEncoding_inj (s1 : list (string * list byte)) :
  forall s2,
    forallb nulFree s1 = true -> forallb nulFree s2 = true ->
    specEncoding s1 = specEncoding s2 -> s1 = s2.
Proof.
  induction s1 as [|[p1 d1] s1 IH]; intros [|[p2 d2] s2] H1 H2 Heq.
  - reflexivity.
  - simpl in Heq. destruct (utf8 p2); discriminate.
  - simpl in Heq. destruct (utf8 p1); discriminate.
  - simpl in H1, H2, Heq.
    apply andb_true_iff in H1 as [H1 Hs1]. apply andb_true_iff in H2 as [H2 Hs2].
    unfold nulFree in H1, H2. simpl in H1, H2.
    apply andb_true_iff in H1 as [Hp1 Hd1]. apply andb_true_iff in H2 as [Hp2 Hd2].
    rewrite <- !app_assoc in Heq. simpl in Heq.
    apply nul_split in Heq as [Hp Heq]; [|assumption..].
    rewrite <- !app_assoc in Heq. simpl in Heq.
    apply nul_split in Heq as [Hd Heq]; [|assumption..].
    apply utf8_inj in Hp. subst. f_equal. by apply IH.
Qed.

(** C7, amended.  On File Sets without a 0x00 byte in any path or in any
    contents, the bytes fed to the hash determine the File Set: two lists
    of files that feed the same bytes have the same normalized relative
    paths and the same contents, in the same order. *)
Theorem prehash_injective_without_nul (sep : ascii) (repoRoot : string)
    (fs1 fs2 : filesystem) (files1 files2 : list string)
    (bytes : list byte) :
  forallb nulFree (fileSet sep repoRoot fs1 files1) = true ->
  forallb nulFree (fileSet sep repoRoot fs2 files2) = true ->
  hashInput sep repoRoot fs1 files1 = Ok bytes ->
  hashInput sep repoRoot fs2 files2 = Ok bytes ->
  fileSet sep repoRoot fs1 files1 = fileSet sep repoRoot fs2 files2.
Proof.
  intros Hn1 Hn2 H1 H2.
  pose proof (hashInput_Ok _ _ _ _ _ _ H1) as Hr1.
  pose proof (hashInput_Ok _ _ _ _ _ _ H2) as Hr2.
  rewrite (hashInput_regular _ _ _ _ Hr1) in H1.
  rewrite (hashInput_regular _ _ _ _ Hr2) in H2.
  apply specEncoding_inj; [assumption..|]. congruence.
Qed.

End Encoding.

(** ** The cache record *)

Section CacheRecord.

Lemma strip_prefix_Some (w : list byte) :
  forall l r, strip_prefix w l = Some r <-> l = w ++ r.
Proof.
  induction w as [|a w IH]; intros l r; simpl.
  - split; [by intros [= ->] | by intros ->].
  - destruct l as [|b l]; [split; discriminate|].
    destruct (Byte.eqb a b) eqn:Hab.
    + apply Byte.byte_dec_bl in Hab as ->. rewrite IH.
      split; [by intros -> | by intros [= ->]].
    + split; [discriminate|]. intros [= Heq _].
      by rewrite (Byte.byte_dec_lb (eq_sym Heq)) in Hab.
Qed.

Lemma strip_one_None (ws : list (list byte)) (l : list byte) :
  (forall w, In w ws -> strip_prefix w l = None) -> strip_one ws l = None.
Proof.
  induction ws as [|w ws IH]; intros Hnone; simpl; [reflexivity|].
  rewrite (Hnone w) by (by left). apply IH. intros w' Hw'. apply Hnone. by right.
Qed.

Lemma strip_all_None (ws : list (list byte)) (fuel : nat) (l : list byte) :
  strip_one ws l = None -> strip_all ws fuel l = l.
Proof. intros H. destruct fuel; simpl; [reflexivity|]. by rewrite H. Qed.

Lemma strip_all_S (ws : list (list byte)) (fuel : nat) (l : list byte) :
  strip_all ws (S fuel) l =
    match strip_one ws l with
    | Some l' => strip_all ws fuel l'
    | None => l
    end.
Proof. reflexivity. Qed.

Lemma strip_one_line_feed (l : list byte) :
  strip_one (map (@rev byte) whiteSpace) (x0a :: l) = Some l.
Proof. reflexivity. Qed.

Lemma occurs_prefix (w l : list byte) :
  occurs w l = false -> strip_prefix w l = None.
Proof. destruct l; simpl; destruct (strip_prefix w _); congruence. Qed.

Lemma occurs_middle (w a b : list byte) : occurs w (a ++ w ++ b) = true.
Proof.
  induction a as [|c a IH]; simpl.
  - assert (strip_prefix w (w ++ b) = Some b) as Hs by by apply strip_prefix_Some.
    destruct (w ++ b); simpl; by rewrite Hs.
  - by destruct (strip_prefix w (c :: a ++ w ++ b)).
Qed.

Lemma whitespaceFree_occurs (f : string) (w : list byte) :
  whitespaceFree f = true -> In w whiteSpace -> occurs w (utf8 f) = false.
Proof.
  unfold whitespaceFree. rewrite forallb_forall. intros Hfree Hw.
  apply Hfree in Hw. by apply negb_true_iff in Hw.
Qed.

(** No whitespace character ends with a line feed after other bytes. *)
Lemma whiteSpace_line_feed (w b : list byte) :
  In w whiteSpace -> w = b ++ [x0a] -> b = [].
Proof.
  intros Hw ->. destruct b as [|c b]; [reflexivity|]. exfalso.
  assert (forallb (fun w => match rev w with
                            | x0a :: _ :: _ => false
                            | _ => true
                            end) whiteSpace = true) as Hall by reflexivity.
  rewrite forallb_forall in Hall. apply Hall in Hw.
  rewrite rev_app_distr in Hw. simpl in Hw.
  destruct (rev b ++ [c]) eqn:Hrev; [|discriminate].
  by destruct (rev b).
Qed.

Lemma trim_line (f : string) :
  whitespaceFree f = true -> trim (f +:+ String "010" "") = f.
Proof.
  intros Hfree. unfold trim. rewrite utf8_app.
  change (utf8 (String "010" "")) with [x0a].
  destruct (utf8 f) as [|c b] eqn:Hf.
  - assert (f = "") as -> by (apply utf8_inj; exact Hf). reflexivity.
  - rewrite <- Hf.
    assert (trimStart (utf8 f ++ [x0a]) = utf8 f ++ [x0a]) as ->.
    { apply strip_all_None, strip_one_None. intros w Hw.
      destruct (strip_prefix w (utf8 f ++ [x0a])) as [r|] eqn:Hs; [|reflexivity].
      exfalso. apply strip_prefix_Some in Hs.
      destruct r as [|x r _] using rev_ind.
      - rewrite app_nil_r in Hs. symmetry in Hs.
        apply (whiteSpace_line_feed _ _ Hw) in Hs. by rewrite Hf in Hs.
      - rewrite app_assoc in Hs. apply app_inj_tail in Hs as [Hs _].
        pose proof (whitespaceFree_occurs f w Hfree Hw) as Hno.
        rewrite Hs, <- (app_nil_l (w ++ r)), occurs_middle in Hno.
        discriminate. }
    unfold trimEnd. rewrite rev_app_distr, length_app, Nat.add_1_r.
    change (rev [x0a] ++ rev (utf8 f)) with (x0a :: rev (utf8 f)).
    rewrite strip_all_S, strip_one_line_feed.
    rewrite strip_all_None; [by rewrite rev_involutive, utf8_decode_utf8|].
    apply strip_one_None. intros rw Hrw.
    apply in_map_iff in Hrw as (w & <- & Hw).
    destruct (strip_prefix (rev w) (rev (utf8 f))) as [r|] eqn:Hs; [|reflexivity].
    exfalso. apply strip_prefix_Some in Hs.
    apply (f_equal (@rev byte)) in Hs.
    rewrite rev_involutive, rev_app_distr, rev_involutive in Hs.
    pose proof (whitespaceFree_occurs f w Hfree Hw) as Hno.
    rewrite Hs in Hno.
    replace (rev r ++ w) with (rev r ++ w ++ []) in Hno
      by (by rewrite app_nil_r).
    rewrite occurs_middle in Hno. discriminate.
Qed.

End CacheRecord.

(** ** The orchestrator *)

Section Orchestrator.

Variable sep : ascii.
Variable repoRoot : string.
Variable localeCompare : string -> string -> Z.
Variable npm_execpath : option string.
Variable execPath : string.
Variable platform : string.
Variable spawnSync :
  string -> list string -> filesystem -> spawn_result * filesystem.

Local Abbreviation rendererDir := (a2uiRendererDir sep repoRoot).
Local Abbreviation appDir := (a2uiAppDir sep repoRoot).
Local Abbreviation manifest := (path_join sep repoRoot "package.json").
Local Abbreviation lockfile := (path_join sep repoRoot "pnpm-lock.yaml").
Local Abbreviation cacheFile := (hashFile sep repoRoot).
Local Abbreviation bundleFile := (outputFile sep repoRoot).
Local Abbreviation cmd := (command npm_execpath execPath platform).
Local Abbreviation argv := (fullArgs npm_execpath).
Local Abbreviation tsc := (tscArgs sep repoRoot).
Local Abbreviation rolldown := (rolldownArgs sep repoRoot).
Local Abbreviation hashOf := (computeHash sep repoRoot localeCompare).
Local Abbreviation run :=
  (script sep repoRoot localeCompare npm_execpath execPath platform
     spawnSync).
Local Abbreviation stored := (storedFingerprint sep repoRoot).
Local Abbreviation runMain :=
  (main sep repoRoot localeCompare npm_execpath execPath platform spawnSync).

Lemma exists_lookup (fs : filesystem) (p : string) :
  exists_ fs p = bool_decide (is_Some (fs !! p)).
Proof.
  unfold exists_, stat. destruct (fs !! p) as [n|].
  - symmetry. apply bool_decide_eq_true. eauto.
  - symmetry. apply bool_decide_eq_false. intros [n Hn]. discriminate.
Qed.

Lemma exists_true (fs : filesystem) (p : string) :
  is_Some (fs !! p) -> exists_ fs p = true.
Proof. intros H. rewrite exists_lookup. by apply bool_decide_eq_true. Qed.

Lemma exists_false (fs : filesystem) (p : string) :
  fs !! p = None -> exists_ fs p = false.
Proof. intros H. unfold exists_, stat. by rewrite H. Qed.

(** C5. With a required source root absent the run ends with exit code 0
    after one line on the console, whatever the fuel (none is needed, so
    no fingerprint is computed), whatever the external tools would do
    (none is started), and with the filesystem as it was (no cache
    record written, the bundle untouched). *)
Theorem skip_on_missing_roots (fuel : nat) (w : world) :
  w_fs w !! rendererDir = None \/ w_fs w !! appDir = None ->
  run fuel w =
    (Some 0%Z,
     World (w_fs w)
       (w_trace w ++ [Log "A2UI sources missing; keeping prebuilt bundle."])).
Proof.
  intros Habsent. unfold run, script, main.
  assert (negb (exists_ (w_fs w) (a2uiRendererDir sep repoRoot))
          || negb (exists_ (w_fs w) (a2uiAppDir sep repoRoot)) = true) as ->.
  { destruct Habsent as [H|H]; rewrite (exists_false _ _ H); simpl.
    - reflexivity.
    - apply orb_true_r. }
  reflexivity.
Qed.

(** Enumeration fails only through the [fs.stat] of a missing path. *)
Lemma for_of_Throw {A S} (body : A -> S -> result S) (P : error -> Prop) :
  forall (xs : list A) (acc : S) (e : error),
    (forall x acc e, body x acc = Throw e -> P e) ->
    for_of xs body acc = Throw e -> P e.
Proof.
  induction xs as [|x xs IH]; intros acc e Hbody; simpl.
  - discriminate.
  - destruct (body x acc) as [acc'| e' |] eqn:Hx; simpl.
    + apply IH, Hbody.
    + intros [= <-]. eapply Hbody, Hx.
    + discriminate.
Qed.

Lemma walk_Throw (fuel : nat) :
  forall (fs : filesystem) (p : string) (out : list string) (e : error),
    walk sep fuel fs p out = Throw e ->
    exists q, fs !! q = None /\ e = SystemError "ENOENT" "stat" (Some q).
Proof.
  induction fuel as [|fuel IH]; intros fs p out e; simpl.
  - discriminate.
  - unfold stat, readdir. destruct (fs !! p) as [[data|entries]|] eqn:Hp; simpl.
    + discriminate.
    + apply (for_of_Throw _
               (fun e => exists q,
                  fs !! q = None /\ e = SystemError "ENOENT" "stat" (Some q))).
      intros x acc e'. apply IH.
    + intros [= <-]. eauto.
Qed.

(** C10. Only the two source directories are probed.  With both present
    and the manifest or the lockfile missing, the run reaches the
    enumeration, which fails in [fs.stat] on a path that is missing: no
    external process is started, nothing is written, the three lines of
    the handler go to the error console, the last one naming the failed
    [stat], and the exit code is 1.  The run ends so with any fuel above
    the number of paths of the filesystem plus one. *)
Theorem missing_manifest_or_lockfile_fails (fuel : nat) (w : world) :
  is_Some (w_fs w !! rendererDir) ->
  is_Some (w_fs w !! appDir) ->
  w_fs w !! manifest = None \/ w_fs w !! lockfile = None ->
  size (w_fs w) + 1 < fuel ->
  exists missing,
    w_fs w !! missing = None /\
    run fuel w =
      (Some 1%Z,
       World (w_fs w)
         (w_trace w ++
          [ LogError
              "A2UI bundling failed. Re-run with: pnpm canvas:a2ui:bundle";
            LogError "If this persists, verify pnpm deps and try again.";
            LogError
              ("Error: ENOENT: no such file or directory, stat '" +:+
               missing +:+ "'") ])).
Proof.
  intros Hr Ha Hmissing Hfuel.
  assert (exists missing,
             w_fs w !! missing = None /\
             hashOf fuel (w_fs w) =
               Throw (SystemError "ENOENT" "stat" (Some missing)))
    as (missing & Hnone & Hhash).
  { unfold computeHash, computeHashOver, enumerate, inputPaths. simpl.
    pose proof (walk_ends sep fuel (w_fs w) manifest [] Hfuel) as Hends.
    destruct (walk sep fuel (w_fs w) manifest []) as [files| e |] eqn:Hwalk;
      simpl.
    - destruct fuel as [|fuel]; [discriminate|].
      destruct Hmissing as [Hm|Hl].
      + simpl in Hwalk. unfold stat in Hwalk. rewrite Hm in Hwalk.
        discriminate.
      + exists lockfile. split; [exact Hl|].
        simpl. unfold stat. rewrite Hl. reflexivity.
    - apply walk_Throw in Hwalk as (q & Hq & ->). eauto.
    - congruence. }
  exists missing. split; [exact Hnone|].
  unfold script, main.
  rewrite (exists_true _ _ Hr), (exists_true _ _ Ha). simpl.
  unfold computeHash in Hhash |- *. rewrite Hhash. reflexivity.
Qed.

(** The test of lines 94 to 100, when the cache record is not a
    directory: stored fingerprint equal to the current one, and the
    bundle present. *)
Lemma upToDate_spec (fs : filesystem) (h : string) :
  (forall entries, fs !! cacheFile <> Some (Dir entries)) ->
  upToDate sep repoRoot fs h =
    Ok (bool_decide (stored fs = Some h /\ is_Some (fs !! bundleFile))).
Proof.
  intros Hnotdir. unfold upToDate, storedFingerprint, readFile.
  rewrite !exists_lookup.
  destruct (fs !! cacheFile) as [[data|entries]|] eqn:Hc.
  - rewrite bool_decide_eq_true_2 by eauto. simpl. f_equal.
    destruct (String.eqb_spec (trim (utf8_decode data)) h) as [->|Hne]; simpl.
    + apply bool_decide_ext. intuition.
    + symmetry. apply bool_decide_eq_false. intros [[= ?] _]. contradiction.
  - exfalso. eapply Hnotdir. reflexivity.
  - rewrite bool_decide_eq_false_2 by (intros [? ?]; discriminate).
    rewrite bool_decide_eq_false_2 by (intros [? _]; discriminate).
    reflexivity.
Qed.

(** What [main] does once both roots are there and the fingerprint is
    computed. *)
Lemma main_decides (fuel : nat) (w : world) (h : string) :
  is_Some (w_fs w !! rendererDir) ->
  is_Some (w_fs w !! appDir) ->
  hashOf fuel (w_fs w) = Ok h ->
  (forall entries, w_fs w !! cacheFile <> Some (Dir entries)) ->
  runMain fuel w =
    if bool_decide (stored (w_fs w) = Some h /\
                    is_Some (w_fs w !! bundleFile))
    then (Ok tt, emit (Log "A2UI bundle up to date; skipping.") w)
    else build sep repoRoot npm_execpath execPath platform spawnSync h w.
Proof.
  intros Hr Ha Hh Hnotdir. unfold main.
  rewrite (exists_true _ _ Hr), (exists_true _ _ Ha). simpl.
  rewrite Hh, (upToDate_spec _ _ Hnotdir).
  destruct (bool_decide _); reflexivity.
Qed.

(** The pipeline: the trace and the filesystem after [build]. *)
Lemma build_first_fails (h : string) (w : world) res1 fs1 :
  spawnSync cmd (argv tsc) (w_fs w) = (res1, fs1) ->
  succeeded res1 = false ->
  build sep repoRoot npm_execpath execPath platform spawnSync h w =
    (Throw (stageError tsc res1),
     World fs1 (w_trace w ++ [Spawn cmd (argv tsc)])).
Proof.
  intros H1 Hfail. unfold build, runPnpm. rewrite H1.
  unfold succeeded, stageError in *.
  destruct (res_error res1); [reflexivity|].
  destruct (res_status res1) as [[| |]|]; try reflexivity. discriminate.
Qed.

Lemma runPnpm_succeeds (args : list string) (w : world) res fs' :
  spawnSync cmd (argv args) (w_fs w) = (res, fs') ->
  succeeded res = true ->
  runPnpm npm_execpath execPath platform spawnSync args w =
    (Ok tt, World fs' (w_trace w ++ [Spawn cmd (argv args)])).
Proof.
  intros H1 Hok. unfold runPnpm. rewrite H1. unfold succeeded in Hok.
  destruct (res_error res); [discriminate|].
  destruct (res_status res) as [[| |]|]; try discriminate. reflexivity.
Qed.

Lemma build_second_fails (h : string) (w : world) res1 fs1 res2 fs2 :
  spawnSync cmd (argv tsc) (w_fs w) = (res1, fs1) ->
  succeeded res1 = true ->
  spawnSync cmd (argv rolldown) fs1 = (res2, fs2) ->
  succeeded res2 = false ->
  build sep repoRoot npm_execpath execPath platform spawnSync h w =
    (Throw (stageError rolldown res2),
     World fs2
       (w_trace w ++ [Spawn cmd (argv tsc); Spawn cmd (argv rolldown)])).
Proof.
  intros H1 Hok1 H2 Hfail. unfold build.
  rewrite (runPnpm_succeeds _ _ _ _ H1 Hok1).
  unfold runPnpm. simpl. rewrite H2.
  unfold succeeded, stageError in *. rewrite <- app_assoc. simpl.
  destruct (res_error res2); [reflexivity|].
  destruct (res_status res2) as [[| |]|]; try reflexivity. discriminate.
Qed.

Lemma build_spawns (h : string) (w : world) :
  spawns (w_trace (snd (build sep repoRoot npm_execpath execPath platform
                          spawnSync h w))) =
    spawns (w_trace w) ++
    (cmd, argv tsc) ::
    (if succeeded (fst (spawnSync cmd (argv tsc) (w_fs w)))
     then [(cmd, argv rolldown)] else []).
Proof.
  destruct (spawnSync cmd (argv tsc) (w_fs w)) as [res1 fs1] eqn:H1. simpl.
  destruct (succeeded res1) eqn:Hs1.
  - destruct (spawnSync cmd (argv rolldown) fs1) as [res2 fs2] eqn:H2.
    destruct (succeeded res2) eqn:Hs2.
    + unfold build. rewrite (runPnpm_succeeds _ _ _ _ H1 Hs1).
      pose proof (runPnpm_succeeds rolldown
                    (World fs1 (w_trace w ++ [Spawn cmd (argv tsc)]))
                    res2 fs2 H2 Hs2) as ->.
      simpl. rewrite <- app_assoc. simpl.
      destruct (writeFile _ _ _ _); simpl; unfold spawns;
        rewrite ?omap_app; simpl; rewrite <- ?app_assoc, ?app_nil_r;
        reflexivity.
    + rewrite (build_second_fails h w _ _ _ _ H1 Hs1 H2 Hs2). simpl.
      unfold spawns. rewrite omap_app. reflexivity.
  - rewrite (build_first_fails h w _ _ H1 Hs1). simpl.
    unfold spawns. rewrite omap_app. reflexivity.
Qed.

Lemma script_spawns (fuel : nat) (w : world) :
  spawns (w_trace (snd (run fuel w))) =
  spawns (w_trace (snd (runMain fuel w))).
Proof.
  unfold script. destruct (main _ _ _ _ _ _ _ _ _) as [[[]|e|] w']; simpl;
    try reflexivity.
  unfold spawns. rewrite omap_app. simpl. apply app_nil_r.
Qed.

(** C3, amended.  With both roots present, the fingerprint computed and
    the cache record absent or a regular file: when the stored
    fingerprint equals the current one and the bundle exists, the run
    ends with exit code 0 after one line on the console and starts no
    process; otherwise the first stage is started, and the second one
    after it if and only if the first succeeded.  So a stage is started
    exactly when the bundle is not up to date. *)
Theorem rebuild_decision (fuel : nat) (fs : filesystem) (h : string) :
  is_Some (fs !! rendererDir) ->
  is_Some (fs !! appDir) ->
  hashOf fuel fs = Ok h ->
  (forall entries, fs !! cacheFile <> Some (Dir entries)) ->
  (stored fs = Some h /\ is_Some (fs !! bundleFile) ->
     run fuel (World fs []) =
       (Some 0%Z, World fs [Log "A2UI bundle up to date; skipping."])) /\
  (~ (stored fs = Some h /\ is_Some (fs !! bundleFile)) ->
     spawns (w_trace (snd (run fuel (World fs [])))) =
       (cmd, argv tsc) ::
       (if succeeded (fst (spawnSync cmd (argv tsc) fs))
        then [(cmd, argv rolldown)] else [])) /\
  (spawns (w_trace (snd (run fuel (World fs [])))) <> [] <->
     ~ (stored fs = Some h /\ is_Some (fs !! bundleFile))).
Proof.
  intros Hr Ha Hh Hnotdir.
  pose proof (main_decides fuel (World fs []) h Hr Ha Hh Hnotdir) as Hmain.
  simpl in Hmain.
  assert (stored fs = Some h /\ is_Some (fs !! bundleFile) ->
          run fuel (World fs []) =
            (Some 0%Z, World fs [Log "A2UI bundle up to date; skipping."]))
    as Hskip.
  { intros Hup. unfold script. rewrite Hmain.
    rewrite bool_decide_eq_true_2 by exact Hup. reflexivity. }
  assert (~ (stored fs = Some h /\ is_Some (fs !! bundleFile)) ->
          spawns (w_trace (snd (run fuel (World fs [])))) =
            (cmd, argv tsc) ::
            (if succeeded (fst (spawnSync cmd (argv tsc) fs))
             then [(cmd, argv rolldown)] else [])) as Hbuild.
  { intros Hstale. rewrite script_spawns, Hmain.
    rewrite bool_decide_eq_false_2 by exact Hstale.
    rewrite build_spawns. reflexivity. }
  split; [exact Hskip|]. split; [exact Hbuild|].
  split.
  - intros Hsp Hup. apply Hsp. rewrite (Hskip Hup). reflexivity.
  - intros Hstale. rewrite (Hbuild Hstale). discriminate.
Qed.

(** C4, amended.  When the run reaches the pipeline and a stage does not
    succeed, the run ends there: the exit code is 1, the trace holds the
    stages started so far (the second one only after a successful first)
    followed by the three lines of the handler on the error console, the
    script writes no file, and the filesystem is the one the failed
    process left; so the cache record keeps its value, or stays absent,
    when the external tools leave it alone.  The last line printed is the
    text of the spawn error when the process could not be started, and
    names the arguments of the invocation when the tool exited with a
    nonzero status. *)
Theorem stage_failure_aborts (fuel : nat) (fs : filesystem) (h : string)
    (res1 res2 : spawn_result) (fs1 fs2 : filesystem) :
  is_Some (fs !! rendererDir) ->
  is_Some (fs !! appDir) ->
  hashOf fuel fs = Ok h ->
  (forall entries, fs !! cacheFile <> Some (Dir entries)) ->
  ~ (stored fs = Some h /\ is_Some (fs !! bundleFile)) ->
  spawnSync cmd (argv tsc) fs = (res1, fs1) ->
  spawnSync cmd (argv rolldown) fs1 = (res2, fs2) ->
  (succeeded res1 = false ->
     run fuel (World fs []) =
       (Some 1%Z,
        World fs1
          [ Spawn cmd (argv tsc);
            LogError
              "A2UI bundling failed. Re-run with: pnpm canvas:a2ui:bundle";
            LogError "If this persists, verify pnpm deps and try again.";
            LogError
              match res_error res1 with
              | Some message => message
              | None => "Error: Command failed: pnpm " +:+ join " " tsc
              end ])) /\
  (succeeded res1 = true -> succeeded res2 = false ->
     run fuel (World fs []) =
       (Some 1%Z,
        World fs2
          [ Spawn cmd (argv tsc); Spawn cmd (argv rolldown);
            LogError
              "A2UI bundling failed. Re-run with: pnpm canvas:a2ui:bundle";
            LogError "If this persists, verify pnpm deps and try again.";
            LogError
              match res_error res2 with
              | Some message => message
              | None => "Error: Command failed: pnpm " +:+ join " " rolldown
              end ])) /\
  (succeeded res1 && succeeded res2 = false ->
     fs1 !! cacheFile = fs !! cacheFile ->
     fs2 !! cacheFile = fs !! cacheFile ->
     w_fs (snd (run fuel (World fs []))) !! cacheFile = fs !! cacheFile).
Proof.
  intros Hr Ha Hh Hnotdir Hstale H1 H2.
  pose proof (main_decides fuel (World fs []) h Hr Ha Hh Hnotdir) as Hmain.
  simpl in Hmain. rewrite bool_decide_eq_false_2 in Hmain by exact Hstale.
  assert (succeeded res1 = false ->
          run fuel (World fs []) =
            (Some 1%Z,
             World fs1
               ([Spawn cmd (argv tsc)] ++ diagnostic (stageError tsc res1))))
    as Hfirst.
  { intros Hf1. unfold script. rewrite Hmain.
    by rewrite (build_first_fails h (World fs []) res1 fs1 H1 Hf1). }
  assert (succeeded res1 = true -> succeeded res2 = false ->
          run fuel (World fs []) =
            (Some 1%Z,
             World fs2
               ([Spawn cmd (argv tsc); Spawn cmd (argv rolldown)] ++
                diagnostic (stageError rolldown res2)))) as Hsecond.
  { intros Hs1 Hf2. unfold script. rewrite Hmain.
    by rewrite (build_second_fails h (World fs []) _ _ _ _ H1 Hs1 H2 Hf2). }
  split; [|split].
  - intros Hf1. rewrite (Hfirst Hf1). unfold diagnostic, stageError.
    destruct (res_error res1); reflexivity.
  - intros Hs1 Hf2. rewrite (Hsecond Hs1 Hf2). unfold diagnostic, stageError.
    destruct (res_error res2); reflexivity.
  - intros Hfail Hkeep1 Hkeep2. destruct (succeeded res1) eqn:Hs1.
    + simpl in Hfail. by rewrite (Hsecond eq_refl Hfail).
    + by rewrite (Hfirst eq_refl).
Qed.

(** The tail of [main] when it returns: both stages succeeded, and the
    fingerprint followed by a line feed was written to the cache record
    in the filesystem the second stage left. *)
Lemma build_Ok (h : string) (w w' : world) :
  build sep repoRoot npm_execpath execPath platform spawnSync h w =
    (Ok tt, w') ->
  exists fs2,
    writeFile sep fs2 cacheFile (h +:+ String "010" "") = Ok (w_fs w') /\
    w_trace w' =
      w_trace w ++
      [ Spawn cmd (argv tsc); Spawn cmd (argv rolldown);
        WriteFile cacheFile (h +:+ String "010" "") ].
Proof.
  unfold build.
  destruct (runPnpm _ _ _ _ tsc w) as [[[]| |] w1] eqn:H1; try discriminate.
  destruct (runPnpm _ _ _ _ rolldown w1) as [[[]| |] w2] eqn:H2;
    try discriminate.
  destruct (writeFile sep (w_fs w2) cacheFile (h +:+ String "010" ""))
    as [fs'| |] eqn:Hwrite; try discriminate.
  intros [= <-]. exists (w_fs w2). split; [exact Hwrite|]. simpl.
  unfold runPnpm in H1, H2.
  destruct (spawnSync cmd (argv tsc) (w_fs w)) as [res1 fs1].
  destruct (res_error res1); [discriminate|].
  destruct (res_status res1) as [[| |]|]; try discriminate.
  injection H1 as <-. simpl in H2.
  destruct (spawnSync cmd (argv rolldown) fs1) as [res2 fs2].
  destruct (res_error res2); [discriminate|].
  destruct (res_status res2) as [[| |]|]; try discriminate.
  injection H2 as <-. simpl. by rewrite <- !app_assoc.
Qed.

Lemma writeFile_lookup (fs fs' : filesystem) (p data : string) :
  writeFile sep fs p data = Ok fs' -> fs' !! p = Some (File (utf8 data)).
Proof.
  unfold writeFile.
  destruct (fs !! p) as [[]|]; try discriminate;
    destruct (fs !! dirname sep p) as [[]|]; try discriminate;
    intros [= <-]; apply lookup_insert_eq.
Qed.

(** C9. The script's own write and read of the cache record.  When the
    tail of [main] returns for a fingerprint without whitespace, the
    record holds the fingerprint followed by a line feed, written there
    as the last effect; and the test of the next run, which reads the
    record and trims it, compares the very fingerprint that was written
    with the current one: the record read back is the fingerprint. *)
Theorem cache_record_roundtrip (f : string) (w w' : world) :
  whitespaceFree f = true ->
  build sep repoRoot npm_execpath execPath platform spawnSync f w =
    (Ok tt, w') ->
  w_fs w' !! cacheFile = Some (File (utf8 f ++ [x0a])) /\
  (exists trace,
     w_trace w' = trace ++ [WriteFile cacheFile (f +:+ String "010" "")]) /\
  (forall currentHash,
     upToDate sep repoRoot (w_fs w') currentHash =
       Ok (String.eqb f currentHash && exists_ (w_fs w') bundleFile)) /\
  stored (w_fs w') = Some f.
Proof.
  intros Hfree Hbuild.
  apply build_Ok in Hbuild as (fs2 & Hwrite & Htrace).
  apply writeFile_lookup in Hwrite.
  split; [by rewrite Hwrite, utf8_app|]. split.
  { exists (w_trace w ++ [Spawn cmd (argv tsc); Spawn cmd (argv rolldown)]).
    rewrite Htrace, <- app_assoc. reflexivity. }
  split.
  - intros currentHash. unfold upToDate, readFile.
    rewrite (exists_true _ cacheFile) by (rewrite Hwrite; eauto).
    rewrite Hwrite. simpl. by rewrite utf8_decode_utf8, trim_line.
  - unfold storedFingerprint. rewrite Hwrite.
    by rewrite utf8_decode_utf8, trim_line.
Qed.

End Orchestrator.

(** ** The script on the concrete platform *)

Section Comparators.

Lemma separates_sound (comparefn : string -> string -> Z) (l : list string) :
  separates comparefn l = true ->
  forall a b, a ∈ l -> b ∈ l -> comparefn a b = 0%Z -> a = b.
Proof.
  unfold separates. rewrite forallb_forall. intros Hall a b Ha Hb Hab.
  apply list_elem_of_In in Ha, Hb.
  specialize (Hall a Ha). rewrite forallb_forall in Hall.
  specialize (Hall b Hb). rewrite Hab in Hall. simpl in Hall.
  by apply String.eqb_eq.
Qed.

Lemma byteCompare_le (a b : string) :
  (Posix.byteCompare a b <= 0)%Z <-> String.le a b.
Proof.
  unfold Posix.byteCompare, String.le, String.leb.
  destruct (String.compare a b); simpl; split; intros H;
    try exact I; try lia; destruct H.
Qed.

Lemma byteCompare_consistent : consistent Posix.byteCompare.
Proof.
  split.
  - intros a b. unfold Posix.byteCompare.
    rewrite (String.compare_antisym b a).
    destruct (String.compare a b); simpl; lia.
  - intros a b c. rewrite !byteCompare_le. apply transitivity.
Qed.

Lemma canonicalCompare_consistent : consistent Posix.canonicalCompare.
Proof.
  destruct byteCompare_consistent as [Hsign Htrans].
  split; unfold Posix.canonicalCompare.
  - intros a b. apply Hsign.
  - intros a b c. apply Htrans.
Qed.

Lemma estonianCompare_consistent : consistent Posix.estonianCompare.
Proof.
  destruct byteCompare_consistent as [Hsign Htrans].
  split; unfold Posix.estonianCompare.
  - intros a b. apply Hsign.
  - intros a b c. apply Htrans.
Qed.

(** Comparison by bytes does not look at a part that both paths share. *)
Lemma replaceAll_app (c d : ascii) (a b : string) :
  replaceAll c d (a +:+ b) = replaceAll c d a +:+ replaceAll c d b.
Proof.
  induction a as [|x a IH]; [reflexivity|].
  rewrite string_app_cons. simpl. by rewrite IH, string_app_cons.
Qed.

Lemma compare_app (p a b : string) :
  String.compare (p +:+ a) (p +:+ b) = String.compare a b.
Proof.
  induction p as [|x p IH]; [reflexivity|].
  rewrite !string_app_cons. simpl. unfold Ascii.compare.
  by rewrite N.compare_refl.
Qed.

Lemma byteCompare_ordersByRelativePath (sep : ascii) (repoRoot : string)
    (files : list string) :
  ordersByRelativePath Posix.byteCompare sep repoRoot files.
Proof.
  intros r r' _ _. rewrite !replaceAll_app. unfold Posix.byteCompare.
  rewrite compare_app. cbn [replaceAll String.compare].
  unfold Ascii.compare. by rewrite N.compare_refl.
Qed.

End Comparators.

(** ** The enumerator on single roots *)

(** C8. A root that is a regular file is enumerated as exactly that one
    file, appended to what was collected before; a root that is an empty
    directory adds nothing.  One unit of fuel is enough in both cases. *)
Theorem walk_file_or_empty_directory (sep : ascii) (fs : filesystem)
    (root : string) (out : list string) (fuel : nat) :
  (forall data, fs !! root = Some (File data) ->
     walk sep (S fuel) fs root out = Ok (out ++ [root])) /\
  (fs !! root = Some (Dir []) -> walk sep (S fuel) fs root out = Ok out).
Proof.
  split.
  - intros data Hfile. simpl. unfold stat. by rewrite Hfile.
  - intros Hdir. simpl. unfold stat, readdir. by rewrite Hdir.
Qed.

Lemma walk_file_or_empty_directory_witness :
  walk Posix.sep 1 Posix.checkout "/repo/package.json" [] =
    Ok ["/repo/package.json"] /\
  walk Posix.sep 1 Posix.checkout "/repo/src/canvas-host/a2ui" ["seen"] =
    Ok ["seen"].
Proof.
  split.
  - apply (proj1 (walk_file_or_empty_directory Posix.sep Posix.checkout
                    "/repo/package.json" [] 0) (utf8 "{}")).
    reflexivity.
  - apply (proj2 (walk_file_or_empty_directory Posix.sep Posix.checkout
                    "/repo/src/canvas-host/a2ui" ["seen"] 0)).
    reflexivity.
Defined.

(** ** Runs on the concrete platform *)

Section Runs.

Local Abbreviation cacheFile := (hashFile Posix.sep Posix.repoRoot).
Local Abbreviation tsc := (tscArgs Posix.sep Posix.repoRoot).
Local Abbreviation rolldown := (rolldownArgs Posix.sep Posix.repoRoot).
Local Abbreviation current :=
  "4a7aa24db1c54e54c43486c1187d99015488a7f105a74551f8e95e1d1177e43d".

Lemma checkout_roots :
  is_Some (Posix.checkout !! a2uiRendererDir Posix.sep Posix.repoRoot) /\
  is_Some (Posix.checkout !! a2uiAppDir Posix.sep Posix.repoRoot).
Proof. split; eexists; vm_compute; reflexivity. Qed.

Lemma checkout_hash :
  computeHash Posix.sep Posix.repoRoot Posix.byteCompare 10 Posix.checkout =
    Ok current.
Proof. vm_compute. reflexivity. Qed.

Lemma checkout_no_record : Posix.checkout !! cacheFile = None.
Proof. vm_compute. reflexivity. Qed.

(** A checkout without the renderer sources: the run is skipped with no
    fuel at all, whatever the tools. *)
Lemma skip_on_missing_roots_witness :
  Posix.run Posix.toolsFail 0 (delete Posix.lit Posix.checkout) =
    (Some 0%Z,
     World (delete Posix.lit Posix.checkout)
       [Log "A2UI sources missing; keeping prebuilt bundle."]).
Proof.
  unfold Posix.run.
  refine (skip_on_missing_roots Posix.sep Posix.repoRoot Posix.byteCompare
            None "/usr/bin/node" "linux" Posix.toolsFail 0
            (World (delete Posix.lit Posix.checkout) []) _).
  left. vm_compute. reflexivity.
Defined.

(** The checkout without its lockfile. *)
Lemma missing_manifest_or_lockfile_fails_witness :
  exists missing,
    delete "/repo/pnpm-lock.yaml" Posix.checkout !! missing = None /\
    Posix.run Posix.toolsSucceed 20
      (delete "/repo/pnpm-lock.yaml" Posix.checkout) =
      (Some 1%Z,
       World (delete "/repo/pnpm-lock.yaml" Posix.checkout)
         [ LogError
             "A2UI bundling failed. Re-run with: pnpm canvas:a2ui:bundle";
           LogError "If this persists, verify pnpm deps and try again.";
           LogError
             ("Error: ENOENT: no such file or directory, stat '" +:+
              missing +:+ "'") ]).
Proof.
  unfold Posix.run.
  refine (missing_manifest_or_lockfile_fails Posix.sep Posix.repoRoot
            Posix.byteCompare None "/usr/bin/node" "linux"
            Posix.toolsSucceed 20
            (World (delete "/repo/pnpm-lock.yaml" Posix.checkout) [])
            _ _ _ _).
  - eexists. vm_compute. reflexivity.
  - eexists. vm_compute. reflexivity.
  - right. vm_compute. reflexivity.
  - vm_compute. lia.
Defined.

(** C3, as stated, fails, in three runs with both roots present and the
    bundle not up to date.  In the fresh checkout, without a cache record,
    only the first stage is started when it fails.  Without the lockfile
    no fingerprint is computed and no stage is started.  With a directory
    in the place of the cache record, reading it fails and no stage is
    started. *)
Lemma second_stage_not_always_invoked :
  let noLockfile := delete "/repo/pnpm-lock.yaml" Posix.checkout in
  let recordIsDirectory := <[cacheFile := Dir []]> Posix.checkout in
  (is_Some (Posix.checkout !! a2uiRendererDir Posix.sep Posix.repoRoot) /\
   is_Some (Posix.checkout !! a2uiAppDir Posix.sep Posix.repoRoot) /\
   Posix.checkout !! cacheFile = None /\
   spawns (w_trace (snd (Posix.run Posix.toolsFail 10 Posix.checkout))) =
     [("pnpm", tsc)]) /\
  (is_Some (noLockfile !! a2uiRendererDir Posix.sep Posix.repoRoot) /\
   is_Some (noLockfile !! a2uiAppDir Posix.sep Posix.repoRoot) /\
   noLockfile !! cacheFile = None /\
   spawns (w_trace (snd (Posix.run Posix.toolsSucceed 10 noLockfile))) = []) /\
  (is_Some (recordIsDirectory !! a2uiRendererDir Posix.sep Posix.repoRoot) /\
   is_Some (recordIsDirectory !! a2uiAppDir Posix.sep Posix.repoRoot) /\
   storedFingerprint Posix.sep Posix.repoRoot recordIsDirectory = None /\
   Posix.run Posix.toolsSucceed 10 recordIsDirectory =
     (Some 1%Z,
      World recordIsDirectory (diagnostic (SystemError "EISDIR" "read" None)))).
Proof.
  repeat split; try (eexists; vm_compute; reflexivity);
    vm_compute; reflexivity.
Qed.

(** The fresh checkout with tools that succeed: both stages run.  The
    checkout they leave, with its cache record and its bundle: the next
    run is skipped. *)
Lemma rebuild_decision_witness :
  spawns (w_trace (snd (Posix.run Posix.toolsSucceed 10 Posix.checkout))) =
    [("pnpm", tsc); ("pnpm", rolldown)] /\
  Posix.run Posix.toolsSucceed 10 Posix.built =
    (Some 0%Z, World Posix.built [Log "A2UI bundle up to date; skipping."]).
Proof.
  split.
  - unfold Posix.run.
    refine (proj1 (proj2
              (rebuild_decision Posix.sep Posix.repoRoot Posix.byteCompare
                 None "/usr/bin/node" "linux" Posix.toolsSucceed 10
                 Posix.checkout current _ _ _ _)) _).
    + apply checkout_roots.
    + apply checkout_roots.
    + apply checkout_hash.
    + intros entries. rewrite checkout_no_record. discriminate.
    + intros [Hstored _]. vm_compute in Hstored. discriminate.
  - unfold Posix.run.
    refine (proj1
              (rebuild_decision Posix.sep Posix.repoRoot Posix.byteCompare
                 None "/usr/bin/node" "linux" Posix.toolsSucceed 10
                 Posix.built current _ _ _ _) _).
    + eexists. vm_compute. reflexivity.
    + eexists. vm_compute. reflexivity.
    + vm_compute. reflexivity.
    + intros entries. vm_compute. discriminate.
    + split; [vm_compute; reflexivity | eexists; vm_compute; reflexivity].
Defined.

(** C4, as stated, fails: when the runner cannot be started, the last
    line of the diagnostic is the spawn error, and no line printed names
    an argument of the invocation that failed. *)
Lemma spawn_failure_diagnostic_names_no_argument :
  fst (Posix.run Posix.toolsMissing 10 Posix.checkout) = Some 1%Z /\
  spawns (w_trace (snd (Posix.run Posix.toolsMissing 10 Posix.checkout))) =
    [("pnpm", tsc)] /\
  errorLines (w_trace (snd (Posix.run Posix.toolsMissing 10 Posix.checkout)))
    = [ "A2UI bundling failed. Re-run with: pnpm canvas:a2ui:bundle";
        "If this persists, verify pnpm deps and try again.";
        "Error: spawnSync pnpm ENOENT" ] /\
  Forall (fun line => Forall (fun arg => includes line arg = false) tsc)
    (errorLines
       (w_trace (snd (Posix.run Posix.toolsMissing 10 Posix.checkout)))).
Proof.
  split; [vm_compute; reflexivity|]. split; [vm_compute; reflexivity|].
  split; [vm_compute; reflexivity|].
  vm_compute. repeat constructor.
Qed.

(** The fresh checkout with a bundler that exits with status 1. *)
Lemma stage_failure_aborts_witness :
  Posix.run Posix.bundlerFails 10 Posix.checkout =
    (Some 1%Z,
     World Posix.checkout
       [ Spawn "pnpm" tsc; Spawn "pnpm" rolldown;
         LogError "A2UI bundling failed. Re-run with: pnpm canvas:a2ui:bundle";
         LogError "If this persists, verify pnpm deps and try again.";
         LogError "Error: Command failed: pnpm -s exec rolldown -c /repo/apps/shared/OpenClawKit/Tools/CanvasA2UI/rolldown.config.mjs" ]) /\
  w_fs (snd (Posix.run Posix.bundlerFails 10 Posix.checkout)) !! cacheFile =
    None.
Proof.
  destruct (stage_failure_aborts Posix.sep Posix.repoRoot Posix.byteCompare
              None "/usr/bin/node" "linux" Posix.bundlerFails 10
              Posix.checkout current
              (SpawnResult None (Some 0%Z)) (SpawnResult None (Some 1%Z))
              Posix.checkout Posix.checkout)
    as (_ & Hsecond & Hrecord).
  - apply checkout_roots.
  - apply checkout_roots.
  - apply checkout_hash.
  - intros entries. rewrite checkout_no_record. discriminate.
  - intros [Hstored _]. vm_compute in Hstored. discriminate.
  - vm_compute. reflexivity.
  - vm_compute. reflexivity.
  - split.
    + unfold Posix.run. rewrite (Hsecond eq_refl eq_refl). reflexivity.
    + rewrite <- checkout_no_record. apply Hrecord; reflexivity.
Defined.

(** The build of the fresh checkout with tools that succeed, and the
    record it leaves, read by the test of the next run. *)
Lemma cache_record_roundtrip_witness :
  let w' :=
    snd (build Posix.sep Posix.repoRoot None "/usr/bin/node" "linux"
           Posix.toolsSucceed current (World Posix.checkout [])) in
  w_fs w' !! cacheFile = Some (File (utf8 current ++ [x0a])) /\
  (exists trace,
     w_trace w' =
       trace ++ [WriteFile cacheFile (current +:+ String "010" "")]) /\
  (forall currentHash,
     upToDate Posix.sep Posix.repoRoot (w_fs w') currentHash =
       Ok (String.eqb current currentHash &&
           exists_ (w_fs w') (outputFile Posix.sep Posix.repoRoot))) /\
  storedFingerprint Posix.sep Posix.repoRoot (w_fs w') = Some current.
Proof.
  intros w'.
  refine (cache_record_roundtrip Posix.sep Posix.repoRoot None
            "/usr/bin/node" "linux" Posix.toolsSucceed current
            (World Posix.checkout []) w' _ _).
  - vm_compute. reflexivity.
  - vm_compute. reflexivity.
Defined.

End Runs.

(** ** Fingerprints on the concrete platform *)

Section Fingerprints.

Local Abbreviation inputs := (inputPaths Posix.sep Posix.repoRoot).
Local Abbreviation byBytes := (compareFiles Posix.sep Posix.byteCompare).
Local Abbreviation byCanon :=
  (compareFiles Posix.sep Posix.canonicalCompare).
Local Abbreviation oneWay :=
  (Posix.spelledFiles Posix.composed Posix.decomposed).
Local Abbreviation otherWay :=
  (Posix.spelledFiles Posix.decomposed Posix.composed).
Local Abbreviation byEstonian :=
  (compareFiles Posix.sep Posix.estonianCompare).
Local Abbreviation tz := (Posix.listedFiles "t.ts" "z.ts").
Local Abbreviation zt := (Posix.listedFiles "z.ts" "t.ts").

Lemma spelled_enumerations :
  enumerate Posix.sep inputs 10 Posix.spelledOneWay = Ok oneWay /\
  enumerate Posix.sep inputs 10 Posix.spelledOtherWay = Ok otherWay.
Proof. split; vm_compute; reflexivity. Qed.

Lemma spelled_Permutation : Permutation oneWay otherWay.
Proof. unfold Posix.spelledFiles. do 2 apply perm_skip. apply perm_swap. Qed.

Lemma spelled_agree (p : string) :
  p ∈ oneWay -> Posix.spelledOtherWay !! p = Posix.spelledOneWay !! p.
Proof.
  intros Hp. unfold Posix.spelledOtherWay. apply lookup_insert_ne.
  assert (forallb (fun q => negb (String.eqb Posix.lit q)) oneWay = true)
    as Hall by (vm_compute; reflexivity).
  rewrite forallb_forall in Hall. apply list_elem_of_In, Hall in Hp.
  apply negb_true_iff, String.eqb_neq in Hp. exact Hp.
Qed.

(** The example of the design document. *)
Lemma fingerprint_is_digest_of_sorted_entries_witness :
  computeHashOver Posix.sep Posix.repoRoot Posix.byteCompare
    ["/repo/m"; "/repo/d"] 3 Posix.example =
    Ok (hex (SHA256.digest
               (utf8 "d/x" ++ [x00] ++ utf8 "B" ++ [x00] ++
                utf8 "m" ++ [x00] ++ utf8 "A" ++ [x00]))) /\
  computeHashOver Posix.sep Posix.repoRoot Posix.byteCompare
    ["/repo/m"; "/repo/d"] 3 Posix.example =
    Ok "97ffdd18fb1c0613dc1f110c82941398129af573806f80f38929333ce462edb9".
Proof.
  assert (enumerate Posix.sep ["/repo/m"; "/repo/d"] 3 Posix.example =
            Ok ["/repo/m"; "/repo/d/x"]) as Henum
    by (vm_compute; reflexivity).
  assert (Forall
            (fun input =>
               exists rest, input = Posix.repoRoot +:+ String Posix.sep rest)
            ["/repo/m"; "/repo/d"]) as Hinputs.
  { repeat constructor; [by exists "m" | by exists "d"]. }
  destruct (fingerprint_is_digest_of_sorted_entries Posix.sep Posix.repoRoot
              Posix.byteCompare _ _ _ _ Hinputs Henum)
    as (sorted & set & Hperm & Hsorted & Hholds & Hhash & _).
  specialize (Hsorted byteCompare_consistent).
  assert (set = [("d/x", utf8 "B"); ("m", utf8 "A")]) as ->.
  { symmetry in Hperm.
    apply Permutation_length_2_inv in Hperm as [ -> | -> ].
    - exfalso. apply StronglySorted_inv in Hsorted as [_ Hall].
      apply Forall_inv in Hall. vm_compute in Hall. by apply Hall.
    - unfold holds in Hholds.
      apply Forall2_cons_inv_l in Hholds
        as ([p1 d1] & set1 & (r1 & Hp1 & Hf1 & Hc1) & Hholds & ->).
      apply Forall2_cons_inv_l in Hholds
        as ([p2 d2] & set2 & (r2 & Hp2 & Hf2 & Hc2) & Hholds & ->).
      apply Forall2_nil_inv_l in Hholds as ->.
      apply (f_equal (string_strip_prefix "/repo/")) in Hp1, Hp2.
      vm_compute in Hp1, Hp2. injection Hp1 as <-. injection Hp2 as <-.
      vm_compute in Hf1, Hf2, Hc1, Hc2. subst p1 p2.
      injection Hc1 as <-. injection Hc2 as <-. reflexivity. }
  split; (etrans; [exact Hhash | vm_compute; reflexivity]).
Defined.

(** C1, as stated, fails, in two ways.  Two checkouts with the same files
    and the same contents, whose renderer directory is listed in two
    orders, under a consistent comparator for which the two spellings of
    one name compare equal: the enumerated lists are permutations of each
    other, and the sort and hash steps give two digests.  And one
    checkout, enumerated in one order, in two processes whose locales
    collate differently (z after t, and z before t): both collations are
    consistent and separate the files, and the fingerprints differ. *)
Lemma enumeration_order_changes_fingerprint :
  (consistent Posix.canonicalCompare /\
   enumerate Posix.sep inputs 10 Posix.spelledOneWay = Ok oneWay /\
   enumerate Posix.sep inputs 10 Posix.spelledOtherWay = Ok otherWay /\
   Permutation oneWay otherWay /\
   (forall p, p ∈ oneWay ->
      Posix.spelledOtherWay !! p = Posix.spelledOneWay !! p) /\
   hashFiles Posix.sep Posix.repoRoot Posix.spelledOneWay
     (sort byCanon oneWay) =
     Ok "fc253ad61b284ec7c51ee48bd18b55aab02063e415d46c0ef194ad53ec7b88a7" /\
   hashFiles Posix.sep Posix.repoRoot Posix.spelledOneWay
     (sort byCanon otherWay) =
     Ok "ad6b8357e7b8b29ba661fdd2cbb79bec30bfb292a01b619f990aa1f8b4739fee" /\
   computeHash Posix.sep Posix.repoRoot Posix.canonicalCompare 10
     Posix.spelledOneWay <>
   computeHash Posix.sep Posix.repoRoot Posix.canonicalCompare 10
     Posix.spelledOtherWay) /\
  (consistent Posix.byteCompare /\
   consistent Posix.estonianCompare /\
   enumerate Posix.sep inputs 10 Posix.listed = Ok tz /\
   separates byBytes tz = true /\
   separates byEstonian tz = true /\
   sort byBytes tz =
     [ "/repo/apps/shared/OpenClawKit/Tools/CanvasA2UI/rolldown.config.mjs";
       "/repo/package.json"; "/repo/pnpm-lock.yaml";
       Posix.lit +:+ "/t.ts"; Posix.lit +:+ "/z.ts" ] /\
   sort byEstonian tz =
     [ "/repo/apps/shared/OpenClawKit/Tools/CanvasA2UI/rolldown.config.mjs";
       "/repo/package.json"; "/repo/pnpm-lock.yaml";
       Posix.lit +:+ "/z.ts"; Posix.lit +:+ "/t.ts" ] /\
   computeHash Posix.sep Posix.repoRoot Posix.byteCompare 10 Posix.listed =
     Ok "94df1e28dc1b9b5905f325b35b59e20b56f2b7c0e726227d048acdae8ab5a2af" /\
   computeHash Posix.sep Posix.repoRoot Posix.estonianCompare 10 Posix.listed =
     Ok "dac0955dee1305eb58871c0082fad6690066e811bab10a27ec2db6bbab4e50b9").
Proof.
  split.
  - split; [apply canonicalCompare_consistent|].
    split; [apply spelled_enumerations|]. split; [apply spelled_enumerations|].
    split; [apply spelled_Permutation|]. split; [apply spelled_agree|].
    split; [vm_compute; reflexivity|]. split; [vm_compute; reflexivity|].
    vm_compute. discriminate.
  - split; [apply byteCompare_consistent|].
    split; [apply estonianCompare_consistent|].
    repeat split; vm_compute; reflexivity.
Qed.

(** One checkout whose renderer directory is listed in two orders, and
    the same checkout at C: with backslashes, under comparison by bytes,
    which separates the files and orders these names as an English
    collation does. *)
Lemma fingerprint_ignores_enumeration_order_witness :
  hashFiles Posix.sep Posix.repoRoot Posix.listed (sort byBytes tz) =
  hashFiles Posix.sep Posix.repoRoot Posix.listedOtherWay (sort byBytes zt) /\
  computeHash Posix.sep Posix.repoRoot Posix.byteCompare 10 Posix.listed =
  computeHash Posix.sep Posix.repoRoot Posix.byteCompare 10
    Posix.listedOtherWay /\
  computeHash Posix.sep Posix.repoRoot Posix.byteCompare 10 Posix.listed =
  computeHash Win32.sep Win32.repoRoot Posix.byteCompare 10 Win32.listed.
Proof.
  assert (enumerate Posix.sep inputs 10 Posix.listed = Ok tz) as Htz
    by (vm_compute; reflexivity).
  assert (enumerate Posix.sep inputs 10 Posix.listedOtherWay = Ok zt) as Hzt
    by (vm_compute; reflexivity).
  assert (enumerate Win32.sep (inputPaths Win32.sep Win32.repoRoot) 10
            Win32.listed = Ok Win32.listedFiles) as Hwin
    by (vm_compute; reflexivity).
  destruct (fingerprint_ignores_enumeration_order Posix.sep Posix.repoRoot
              Posix.byteCompare Posix.listed Posix.listedOtherWay tz zt)
    as (Hsteps & Hruns & Hacross).
  - apply byteCompare_consistent.
  - apply (separates_sound byBytes). vm_compute. reflexivity.
  - unfold Posix.listedFiles. do 2 apply perm_skip. apply perm_swap.
  - intros p Hp. apply list_elem_of_In in Hp.
    unfold Posix.listedFiles in Hp. simpl in Hp.
    repeat (destruct Hp as [ <- | Hp ]; [vm_compute; reflexivity|]).
    destruct Hp.
  - split; [exact Hsteps|].
    split; [apply (Hruns inputs 10 10); assumption|].
    refine (proj2 (Hacross Win32.sep Win32.repoRoot Win32.listed
                     Win32.listedFiles
                     (fileSet Posix.sep Posix.repoRoot Posix.listed tz)
                     (fileSet Win32.sep Win32.repoRoot Win32.listed
                        Win32.listedFiles) _ _ _ _ _)
              inputs (inputPaths Win32.sep Win32.repoRoot) 10 10 Htz Hwin).
    + apply fileSet_holds.
      * exact (enumerate_regular _ _ _ _ _ Htz).
      * exact (enumerate_inside _ _ _ _ _ _
                 (inputPaths_in_checkout _ _) Htz).
    + apply fileSet_holds.
      * exact (enumerate_regular _ _ _ _ _ Hwin).
      * exact (enumerate_inside _ _ _ _ _ _
                 (inputPaths_in_checkout _ _) Hwin).
    + vm_compute. do 2 apply perm_skip. apply perm_swap.
    + apply byteCompare_ordersByRelativePath.
    + apply byteCompare_ordersByRelativePath.
Defined.



(** C7, as stated, fails: a file whose contents hold 0x00 bytes feeds
    the hash the same bytes as two files without, so two File Sets that
    differ have one encoding, and one fingerprint. *)
Lemma nul_in_contents_collides :
  let one := ["/repo/package.json"; "/repo/pnpm-lock.yaml";
              Posix.lit +:+ "/a";
              "/repo/apps/shared/OpenClawKit/Tools/CanvasA2UI/rolldown.config.mjs"] in
  let two := ["/repo/package.json"; "/repo/pnpm-lock.yaml";
              Posix.lit +:+ "/a"; Posix.lit +:+ "/b";
              "/repo/apps/shared/OpenClawKit/Tools/CanvasA2UI/rolldown.config.mjs"] in
  enumerate Posix.sep inputs 10 Posix.oneBinaryFile = Ok one /\
  enumerate Posix.sep inputs 10 Posix.twoTextFiles = Ok two /\
  fileSet Posix.sep Posix.repoRoot Posix.oneBinaryFile (sort byBytes one) <>
  fileSet Posix.sep Posix.repoRoot Posix.twoTextFiles (sort byBytes two) /\
  hashInput Posix.sep Posix.repoRoot Posix.oneBinaryFile (sort byBytes one) =
  hashInput Posix.sep Posix.repoRoot Posix.twoTextFiles (sort byBytes two) /\
  computeHash Posix.sep Posix.repoRoot Posix.byteCompare 10
    Posix.oneBinaryFile =
  computeHash Posix.sep Posix.repoRoot Posix.byteCompare 10
    Posix.twoTextFiles.
Proof.
  split; [vm_compute; reflexivity|]. split; [vm_compute; reflexivity|].
  split; [vm_compute; discriminate|].
  split; vm_compute; reflexivity.
Qed.

(** Two checkouts without 0x00 bytes that feed the same bytes. *)
Lemma prehash_injective_without_nul_witness :
  fileSet Posix.sep Posix.repoRoot Posix.spelledOneWay
    (sort byBytes oneWay) =
  fileSet Posix.sep Posix.repoRoot Posix.spelledOtherWay
    (sort byBytes otherWay).
Proof.
  apply (prehash_injective_without_nul Posix.sep Posix.repoRoot
           Posix.spelledOneWay Posix.spelledOtherWay
           (sort byBytes oneWay) (sort byBytes otherWay)
           (specEncoding
              (fileSet Posix.sep Posix.repoRoot Posix.spelledOneWay
                 (sort byBytes oneWay))));
    vm_compute; reflexivity.
Defined.

End Fingerprints.

(** * Further properties of the script *)

(** ** The enumerator *)

Section Enumerator.

Variable sep : ascii.


(** A loop whose body only appends to the list it is given can be run on
    the empty list, its result appended afterwards. *)
Lemma for_of_appends {X Y} (body : X -> list Y -> result (list Y))
    (xs : list X) :
  (forall x out, body x out = let* added := body x [] in Ok (out ++ added)) ->
  forall out,
    for_of xs body out = let* added := for_of xs body [] in Ok (out ++ added).
Proof.
  intros Hbody. induction xs as [|x xs IH]; intros out; simpl.
  - by rewrite app_nil_r.
  - rewrite (Hbody x out). destruct (body x []) as [a| |]; simpl; try reflexivity.
    rewrite (IH (out ++ a)), (IH a).
    destruct (for_of xs body []); simpl; try reflexivity.
    by rewrite app_assoc.
Qed.


(** X2. The list handed to [walk] does not influence what is found:
    walking into a list is walking into the empty list and appending the
    result, with the same failure or non-termination otherwise. *)
Theorem walk_into_accumulator (fuel : nat) :
  forall (fs : filesystem) (entryPath : string) (out : list string),
    walk sep fuel fs entryPath out =
      let* added := walk sep fuel fs entryPath [] in Ok (out ++ added).
Proof.
  induction fuel as [|fuel IH]; intros fs p out; simpl; [reflexivity|].
  destruct (stat fs p) as [[data|names]| |]; simpl; try reflexivity.
  destruct (readdir fs p) as [entries| |]; simpl; try reflexivity.
  apply for_of_appends. intros x acc. apply IH.
Qed.

(** X3. A directory that holds only regular files contributes them in the
    order [readdir] lists them, each joined to the directory's path. *)
Theorem walk_flat_directory (fuel : nat) (fs : filesystem)
    (entryPath : string) (names out : list string) :
  fs !! entryPath = Some (Dir names) ->
  (forall name, In name names -> isRegular fs (path_join sep entryPath name)) ->
  walk sep (S (S fuel)) fs entryPath out =
    Ok (out ++ map (path_join sep entryPath) names).
Proof.
  intros Hdir Hfiles.
  assert (forall out,
             for_of names
               (fun entry out =>
                  walk sep (S fuel) fs (path_join sep entryPath entry) out)
               out = Ok (out ++ map (path_join sep entryPath) names)) as Hloop.
  { clear Hdir out. induction names as [|name names IH]; intros out.
    - simpl. by rewrite app_nil_r.
    - cbn [for_of walk]. destruct (Hfiles name) as [data Hname]; [by left|].
      unfold stat. rewrite Hname. cbn [bind isDirectory].
      rewrite IH by (intros n Hn; apply Hfiles; by right).
      by rewrite <- app_assoc. }
  change (walk sep (S (S fuel)) fs entryPath out)
    with (let* st := stat fs entryPath in
          if isDirectory st then
            let* entries := readdir fs entryPath in
            for_of entries
              (fun entry out =>
                 walk sep (S fuel) fs (path_join sep entryPath entry) out)
              out
          else Ok (out ++ [entryPath])).
  unfold stat, readdir. rewrite Hdir. cbn [bind isDirectory]. apply Hloop.
Qed.


End Enumerator.

(** ** The path normalizer *)

Section Normalizer.

Variable sep : ascii.

(** X5. [normalize] replaces every separator by a slash and leaves every
    other character where it is; the length of the path is kept. *)
Theorem normalize_replaces_separators (p : string) :
  normalize sep p = replaceAll sep "/" p /\
  String.length (normalize sep p) = String.length p.
Proof.
  split; [apply normalize_replaceAll|]. rewrite normalize_replaceAll.
  induction p as [|a p IH]; simpl; [reflexivity | by rewrite IH].
Qed.

(** X6. Normalizing twice is normalizing once; and where the separator is
    not the slash, no separator is left in a normalized path. *)
Theorem normalize_idempotent (p : string) :
  normalize sep (normalize sep p) = normalize sep p /\
  (sep <> "/"%char -> hasChar sep (normalize sep p) = false).
Proof.
  rewrite !normalize_replaceAll. split.
  - induction p as [|a p IH]; simpl; [reflexivity|]. rewrite IH. f_equal.
    destruct (Ascii.eqb_spec a sep) as [->|Ha].
    + by destruct (Ascii.eqb_spec "/" sep) as [<-|].
    + by apply Ascii.eqb_neq in Ha as ->.
  - intros Hsep. induction p as [|a p IH]; simpl; [reflexivity|]. rewrite IH.
    destruct (Ascii.eqb_spec a sep) as [->|Ha].
    + rewrite orb_false_r. by apply Ascii.eqb_neq.
    + rewrite orb_false_r. by apply Ascii.eqb_neq.
Qed.

End Normalizer.

(** ** The shape of a fingerprint *)

Section Shape.

Lemma round_length (st : list N) (kw : N * N) :
  length (SHA256.round st kw) = length st.
Proof.
  unfold SHA256.round.
  do 9 (destruct st as [|? st]; try reflexivity).
Qed.

Lemma compress_length (h block : list N) :
  length (SHA256.compress h block) = length h.
Proof.
  unfold SHA256.compress. rewrite List.length_map, List.length_combine.
  set (kws := combine SHA256.K _). clearbody kws.
  assert (forall st, length (fold_left SHA256.round kws st) = length st) as ->.
  { induction kws as [|kw kws IH]; intros st; simpl; [reflexivity|].
    by rewrite IH, round_length. }
  apply Nat.min_id.
Qed.

Lemma digest_length (msg : list byte) : length (SHA256.digest msg) = 32.
Proof.
  unfold SHA256.digest. rewrite List.length_map.
  set (blocks := SHA256.chunks 64 _ _). clearbody blocks.
  assert (forall h, length (fold_left SHA256.compress blocks h) = length h)
    as Hfold.
  { induction blocks as [|b blocks IH]; intros h; simpl; [reflexivity|].
    by rewrite IH, compress_length. }
  specialize (Hfold SHA256.H0).
  destruct (fold_left SHA256.compress blocks SHA256.H0) as [|? l];
    [discriminate|].
  do 7 (destruct l as [|? l]; [discriminate|]).
  destruct l; [reflexivity | discriminate].
Qed.

Lemma hex_length (bs : list byte) : String.length (hex bs) = 2 * length bs.
Proof. induction bs as [|b bs IH]; simpl; [reflexivity|]. rewrite IH. lia. Qed.

Lemma occurs_head (x : byte) (w l : list byte) :
  occurs (x :: w) l = true -> In x l.
Proof.
  induction l as [|y l IH]; simpl; [discriminate|].
  destruct (Byte.eqb x y) eqn:Hxy.
  - apply Byte.byte_dec_bl in Hxy as ->. by left.
  - intros H. right. by apply IH.
Qed.

Lemma lowerHex_bytes (s : string) :
  allChars isLowerHex s = true ->
  forall b, In b (utf8 s) -> isLowerHex (ascii_of_byte b) = true.
Proof.
  unfold utf8, list_byte_of_string.
  induction s as [|c s IH]; simpl; [by intros _ b []|].
  intros [Hc Hs]%andb_true_iff b [<-|Hb].
  - by rewrite ascii_of_byte_of_ascii.
  - by apply IH.
Qed.

Lemma lowerHex_whitespaceFree (s : string) :
  allChars isLowerHex s = true -> whitespaceFree s = true.
Proof.
  intros Hhex. unfold whitespaceFree. apply forallb_forall. intros w Hw.
  apply negb_true_iff. destruct (occurs w (utf8 s)) eqn:Hocc; [|reflexivity].
  assert (forallb (fun w => match w with
                            | x :: _ => negb (isLowerHex (ascii_of_byte x))
                            | [] => false
                            end) whiteSpace = true) as Hall by reflexivity.
  rewrite forallb_forall in Hall. apply Hall in Hw.
  destruct w as [|x w]; [discriminate|].
  apply occurs_head, (lowerHex_bytes s Hhex) in Hocc. by rewrite Hocc in Hw.
Qed.

Lemma computeHashOver_digest (sep : ascii) (repoRoot : string)
    (localeCompare : string -> string -> Z) (inputs : list string)
    (fuel : nat) (fs : filesystem) (h : string) :
  computeHashOver sep repoRoot localeCompare inputs fuel fs = Ok h ->
  exists bytes, h = hex (SHA256.digest bytes).
Proof.
  unfold computeHashOver, hashFiles. intros Hh.
  destruct (enumerate _ _ _ _) as [files| |]; simpl in Hh; try discriminate.
  destruct (hashInput _ _ _ _) as [bytes| |]; simpl in Hh; try discriminate.
  injection Hh as <-. eauto.
Qed.

Lemma computeHashOver_whitespaceFree (sep : ascii) (repoRoot : string)
    (localeCompare : string -> string -> Z) (inputs : list string)
    (fuel : nat) (fs : filesystem) (h : string) :
  computeHashOver sep repoRoot localeCompare inputs fuel fs = Ok h ->
  whitespaceFree h = true.
Proof.
  intros [bytes ->]%computeHashOver_digest.
  apply lowerHex_whitespaceFree, hex_lower.
Qed.

(** X7. Every fingerprint that [computeHash] returns has 64 characters,
    all of them lowercase hexadecimal digits, and so no whitespace: it is
    a string that the cache record gives back unchanged. *)
Theorem fingerprint_shape (sep : ascii) (repoRoot : string)
    (localeCompare : string -> string -> Z) (inputs : list string)
    (fuel : nat) (fs : filesystem) (h : string) :
  computeHashOver sep repoRoot localeCompare inputs fuel fs = Ok h ->
  String.length h = 64 /\
  allChars isLowerHex h = true /\
  whitespaceFree h = true.
Proof.
  intros [bytes ->]%computeHashOver_digest. split.
  - by rewrite hex_length, digest_length.
  - split; [apply hex_lower | apply lowerHex_whitespaceFree, hex_lower].
Qed.

End Shape.

(** ** What the fingerprint depends on *)

Section Locality.

Variable sep : ascii.
Variable repoRoot : string.
Variable localeCompare : string -> string -> Z.

(** A path at or below one of the inputs. *)
Local Abbreviation reached inputs :=
  (fun q : string => exists input, In input inputs /\ below input q).





End Locality.

(** ** Paths of the script *)

Section Paths.

Variable sep : ascii.





Variable repoRoot : string.

Local Abbreviation inside rest := (repoRoot +:+ String sep rest).







End Paths.

(** ** Builds *)

Section Builds.

Variable sep : ascii.
Variable repoRoot : string.
Variable localeCompare : string -> string -> Z.
Variable npm_execpath : option string.
Variable execPath : string.
Variable platform : string.
Variable spawnSync :
  string -> list string -> filesystem -> spawn_result * filesystem.

Local Abbreviation rendererDir := (a2uiRendererDir sep repoRoot).
Local Abbreviation appDir := (a2uiAppDir sep repoRoot).
Local Abbreviation cacheFile := (hashFile sep repoRoot).
Local Abbreviation bundleFile := (outputFile sep repoRoot).
Local Abbreviation cmd := (command npm_execpath execPath platform).
Local Abbreviation argv := (fullArgs npm_execpath).
Local Abbreviation tsc := (tscArgs sep repoRoot).
Local Abbreviation rolldown := (rolldownArgs sep repoRoot).
Local Abbreviation hashOf := (computeHash sep repoRoot localeCompare).
Local Abbreviation stored := (storedFingerprint sep repoRoot).
Local Abbreviation run :=
  (script sep repoRoot localeCompare npm_execpath execPath platform
     spawnSync).
Local Abbreviation runMain :=
  (main sep repoRoot localeCompare npm_execpath execPath platform spawnSync).
Local Abbreviation runBuild :=
  (build sep repoRoot npm_execpath execPath platform spawnSync).
Local Abbreviation line h := (h +:+ String "010" "").

Lemma build_both_succeed (h : string) (w : world) res1 fs1 res2 fs2 :
  spawnSync cmd (argv tsc) (w_fs w) = (res1, fs1) ->
  succeeded res1 = true ->
  spawnSync cmd (argv rolldown) fs1 = (res2, fs2) ->
  succeeded res2 = true ->
  runBuild h w =
    match writeFile sep fs2 cacheFile (line h) with
    | Ok fs3 =>
        (Ok tt,
         World fs3
           (w_trace w ++
            [Spawn cmd (argv tsc); Spawn cmd (argv rolldown);
             WriteFile cacheFile (line h)]))
    | Throw e =>
        (Throw e,
         World fs2
           (w_trace w ++ [Spawn cmd (argv tsc); Spawn cmd (argv rolldown)]))
    | Diverge =>
        (Diverge,
         World fs2
           (w_trace w ++ [Spawn cmd (argv tsc); Spawn cmd (argv rolldown)]))
    end.
Proof.
  intros H1 Hs1 H2 Hs2. unfold build.
  rewrite (runPnpm_succeeds _ _ _ _ tsc w _ _ H1 Hs1).
  rewrite (runPnpm_succeeds _ _ _ _ rolldown
             (World fs1 (w_trace w ++ [Spawn cmd (argv tsc)])) _ _ H2 Hs2).
  cbn [w_fs w_trace]. rewrite <- !app_assoc. cbn [app].
  destruct (writeFile sep fs2 cacheFile (line h)); reflexivity.
Qed.

Lemma writeFile_Ok (fs fs' : filesystem) (p data : string) :
  writeFile sep fs p data = Ok fs' ->
  exists entries,
    fs' = <[p := File (utf8 data)]> (<[dirname sep p := Dir entries]> fs).
Proof.
  unfold writeFile. intros H.
  destruct (fs !! p) as [[]|]; try discriminate;
    destruct (fs !! dirname sep p) as [[]|]; try discriminate;
    injection H as <-; eauto.
Qed.

(** X11. A build whose two stages succeed and whose cache record can be
    written ends with exit code 0; its trace is the two stages in order
    and then the one write; and the record then holds the fingerprint
    that was computed before the stages ran, whatever it held before. *)
Theorem successful_build_records_fingerprint (fuel : nat) (fs : filesystem)
    (h : string) (res1 res2 : spawn_result) (fs1 fs2 fs3 : filesystem) :
  is_Some (fs !! rendererDir) ->
  is_Some (fs !! appDir) ->
  hashOf fuel fs = Ok h ->
  (forall entries, fs !! cacheFile <> Some (Dir entries)) ->
  ~ (stored fs = Some h /\ is_Some (fs !! bundleFile)) ->
  spawnSync cmd (argv tsc) fs = (res1, fs1) ->
  succeeded res1 = true ->
  spawnSync cmd (argv rolldown) fs1 = (res2, fs2) ->
  succeeded res2 = true ->
  writeFile sep fs2 cacheFile (line h) = Ok fs3 ->
  run fuel (World fs []) =
    (Some 0%Z,
     World fs3
       [Spawn cmd (argv tsc); Spawn cmd (argv rolldown);
        WriteFile cacheFile (line h)]) /\
  stored fs3 = Some h.
Proof.
  intros Hr Ha Hh Hnotdir Hstale H1 Hs1 H2 Hs2 Hwrite. split.
  - unfold script.
    rewrite (main_decides _ _ _ _ _ _ _ fuel (World fs []) h Hr Ha Hh Hnotdir).
    cbn [w_fs]. rewrite bool_decide_eq_false_2 by exact Hstale.
    rewrite (build_both_succeed h (World fs []) _ _ _ _ H1 Hs1 H2 Hs2).
    by rewrite Hwrite.
  - apply writeFile_Ok in Hwrite as [entries ->].
    unfold storedFingerprint. rewrite lookup_insert_eq.
    rewrite utf8_decode_utf8, trim_line; [reflexivity|].
    eapply computeHashOver_whitespaceFree, Hh.
Qed.

(** Every way a run can go, with the trace it leaves. *)
Lemma run_cases (fuel : nat) (fs : filesystem) :
  let r := run fuel (World fs []) in
  (exists line, r = (Some 0%Z, World fs [Log line])) \/
  (r = (None, World fs []) /\ hashOf fuel fs = Diverge) \/
  (exists fs' stages err,
     r = (Some 1%Z, World fs' (stages ++ diagnostic err)) /\
     fst (runMain fuel (World fs [])) = Throw err /\
     (stages = [] \/ stages = [Spawn cmd (argv tsc)] \/
      stages = [Spawn cmd (argv tsc); Spawn cmd (argv rolldown)])) \/
  (exists h res1 fs1 res2 fs2 fs3,
     hashOf fuel fs = Ok h /\
     spawnSync cmd (argv tsc) fs = (res1, fs1) /\ succeeded res1 = true /\
     spawnSync cmd (argv rolldown) fs1 = (res2, fs2) /\
     succeeded res2 = true /\
     writeFile sep fs2 cacheFile (line h) = Ok fs3 /\
     r = (Some 0%Z,
          World fs3
            [Spawn cmd (argv tsc); Spawn cmd (argv rolldown);
             WriteFile cacheFile (line h)])).
Proof.
  intros r. subst r. unfold script, main. cbn [w_fs].
  destruct (negb (exists_ fs rendererDir) || negb (exists_ fs appDir)).
  { left. eexists. reflexivity. }
  destruct (hashOf fuel fs) as [h|e|] eqn:Hh.
  - destruct (upToDate sep repoRoot fs h) as [[|]|e|] eqn:Hup.
    + left. eexists. reflexivity.
    + destruct (spawnSync cmd (argv tsc) fs) as [res1 fs1] eqn:H1.
      destruct (succeeded res1) eqn:Hs1.
      * destruct (spawnSync cmd (argv rolldown) fs1) as [res2 fs2] eqn:H2.
        destruct (succeeded res2) eqn:Hs2.
        -- rewrite (build_both_succeed h (World fs []) _ _ _ _ H1 Hs1 H2 Hs2).
           cbn [w_trace app].
           destruct (writeFile sep fs2 cacheFile (line h)) as [fs3|e|] eqn:Hw.
           ++ do 3 right. exists h, res1, fs1, res2, fs2, fs3. auto 10.
           ++ right. right. left. eexists _, _, e. split; [reflexivity|].
              auto.
           ++ unfold writeFile in Hw.
              destruct (fs2 !! cacheFile) as [[]|];
                destruct (fs2 !! dirname sep cacheFile) as [[]|];
                discriminate.
        -- rewrite (build_second_fails _ _ _ _ _ _ h (World fs []) _ _ _ _
                      H1 Hs1 H2 Hs2).
           right. right. left. eexists _, _, _. split; [reflexivity|]. auto.
      * rewrite (build_first_fails _ _ _ _ _ _ h (World fs []) _ _ H1 Hs1).
        right. right. left. eexists _, _, _. split; [reflexivity|]. auto.
    + right. right. left. exists fs, [], e. auto.
    + unfold upToDate in Hup. destruct (exists_ fs cacheFile); [|discriminate].
      unfold readFile in Hup. destruct (fs !! cacheFile) as [[]|]; discriminate.
  - right. right. left. exists fs, [], e. auto.
  - right. left. auto.
Qed.



(** X14. The error console is used exactly by failing runs: a run that
    ends with exit code 0 prints nothing there, and one that ends with
    exit code 1 prints the two fixed lines and then the text of the
    error that [main] threw. *)
Theorem diagnostics_exactly_on_failure (fuel : nat) (fs : filesystem)
    (code : option Z) (w' : world) :
  run fuel (World fs []) = (code, w') ->
  (code = Some 0%Z /\ errorLines (w_trace w') = []) \/
  (code = Some 1%Z /\
   exists err,
     fst (runMain fuel (World fs [])) = Throw err /\
     errorLines (w_trace w') =
       [ "A2UI bundling failed. Re-run with: pnpm canvas:a2ui:bundle";
         "If this persists, verify pnpm deps and try again.";
         String_ err ]) \/
  (code = None /\ hashOf fuel fs = Diverge).
Proof.
  intros Hrun.
  destruct (run_cases fuel fs)
    as [(l & Hr)|[(Hr & Hd)|[(fs' & st & err & Hr & Hmain & Hst)|
        (h & res1 & fs1 & res2 & fs2 & fs3 & Hh & H1 & Hs1 & H2 & Hs2 & Hw & Hr)]]];
    rewrite Hrun in Hr; injection Hr as -> ->; cbn [w_trace].
  - left. auto.
  - right. right. auto.
  - right. left. split; [reflexivity|]. exists err. split; [exact Hmain|].
    unfold errorLines. rewrite omap_app.
    destruct Hst as [ -> | [ -> | -> ] ]; reflexivity.
  - left. auto.
Qed.

End Builds.

(** ** Running again after a build *)

Section Reruns.

Variable sep : ascii.
Variable repoRoot : string.
Variable localeCompare : string -> string -> Z.
Variable npm_execpath : option string.
Variable execPath : string.
Variable platform : string.
Variable spawnSync :
  string -> list string -> filesystem -> spawn_result * filesystem.

Local Abbreviation rendererDir := (a2uiRendererDir sep repoRoot).
Local Abbreviation appDir := (a2uiAppDir sep repoRoot).
Local Abbreviation cacheFile := (hashFile sep repoRoot).
Local Abbreviation bundleFile := (outputFile sep repoRoot).
Local Abbreviation hashOf := (computeHash sep repoRoot localeCompare).
Local Abbreviation run :=
  (script sep repoRoot localeCompare npm_execpath execPath platform
     spawnSync).
Local Abbreviation cacheDir :=
  (repoRoot +:+ String sep
     ("src" +:+ String sep ("canvas-host" +:+ String sep "a2ui"))).







End Reruns.

(** ** Reading a cache record with whitespace around the fingerprint *)

Section Whitespace.

Lemma utf8_utf8_decode (l : list byte) : utf8 (utf8_decode l) = l.
Proof. apply list_byte_of_string_of_list_byte. Qed.

Lemma strip_one_whiteSpace (w rest : list byte) :
  In w whiteSpace -> strip_one whiteSpace (w ++ rest) = Some rest.
Proof.
  intros Hw. unfold whiteSpace in Hw. simpl in Hw.
  repeat (destruct Hw as [<-|Hw]; [reflexivity|]). destruct Hw.
Qed.

Lemma strip_one_reversed (w rest : list byte) :
  In w whiteSpace ->
  strip_one (map (@rev byte) whiteSpace) (rev w ++ rest) = Some rest.
Proof.
  intros Hw. unfold whiteSpace in Hw. simpl in Hw.
  repeat (destruct Hw as [<-|Hw]; [reflexivity|]). destruct Hw.
Qed.

Lemma strip_all_run (W ws : list (list byte)) :
  (forall w rest, In w ws -> strip_one W (w ++ rest) = Some rest) ->
  forall fuel rest,
    length ws <= fuel -> strip_one W rest = None ->
    strip_all W fuel (concat ws ++ rest) = rest.
Proof.
  induction ws as [|w ws IH]; intros Hstrip fuel rest Hfuel Hrest.
  - by apply strip_all_None.
  - destruct fuel as [|fuel]; [simpl in Hfuel; lia|].
    simpl. rewrite <- app_assoc, (Hstrip w) by (by left).
    apply IH; [|simpl in Hfuel; lia|exact Hrest].
    intros w' rest' Hw'. apply Hstrip. by right.
Qed.

Lemma rev_concat_map (l : list (list byte)) :
  rev (concat l) = concat (map (@rev byte) (rev l)).
Proof.
  induction l as [|x l IH]; simpl; [reflexivity|].
  rewrite rev_app_distr, IH, map_app, concat_app. simpl.
  by rewrite app_nil_r.
Qed.

Lemma length_whitespace_run (ws : list (list byte)) :
  Forall (fun w => In w whiteSpace) ws -> length ws <= length (concat ws).
Proof.
  induction 1 as [|w ws Hw _ IH]; simpl; [lia|].
  rewrite length_app. destruct w as [|x w]; [|simpl; lia].
  exfalso. unfold whiteSpace in Hw. simpl in Hw.
  repeat (destruct Hw as [Hw|Hw]; [discriminate|]). destruct Hw.
Qed.

(** No whitespace character starts or ends with a hexadecimal digit. *)
Lemma strip_prefix_hex (w l : list byte) (x : byte) :
  isLowerHex (ascii_of_byte x) = true -> In w whiteSpace ->
  strip_prefix w (x :: l) = None /\ strip_prefix (rev w) (x :: l) = None.
Proof.
  intros Hx Hw.
  assert (forallb (fun w => match w, rev w with
                            | a :: _, b :: _ =>
                                negb (isLowerHex (ascii_of_byte a)) &&
                                negb (isLowerHex (ascii_of_byte b))
                            | _, _ => false
                            end) whiteSpace = true) as Hall by reflexivity.
  rewrite forallb_forall in Hall. apply Hall in Hw.
  destruct w as [|a w]; [discriminate|].
  destruct (rev (a :: w)) as [|b rw]; [discriminate|].
  apply andb_true_iff in Hw as [Ha Hb]. split.
  - simpl. destruct (Byte.eqb a x) eqn:Hax; [|reflexivity].
    apply Byte.byte_dec_bl in Hax as ->. by rewrite Hx in Ha.
  - simpl. destruct (Byte.eqb b x) eqn:Hbx; [|reflexivity].
    apply Byte.byte_dec_bl in Hbx as ->. by rewrite Hx in Hb.
Qed.

Lemma trim_surrounded (h : string) (before after : list (list byte)) :
  allChars isLowerHex h = true -> h <> "" ->
  Forall (fun w => In w whiteSpace) before ->
  Forall (fun w => In w whiteSpace) after ->
  trim (utf8_decode (concat before ++ utf8 h ++ concat after)) = h.
Proof.
  intros Hhex Hne Hbefore Hafter. unfold trim.
  rewrite utf8_utf8_decode.
  pose proof (lowerHex_bytes h Hhex) as Hbytes.
  destruct (utf8 h) as [|x b] eqn:Hh.
  { exfalso. apply Hne, utf8_inj. exact Hh. }
  rewrite <- Hh.
  assert (trimStart (concat before ++ utf8 h ++ concat after) =
            utf8 h ++ concat after) as ->.
  { unfold trimStart. apply strip_all_run.
    - intros w rest Hw. apply strip_one_whiteSpace.
      rewrite List.Forall_forall in Hbefore. by apply Hbefore.
    - rewrite length_app. pose proof (length_whitespace_run _ Hbefore). lia.
    - apply strip_one_None. intros w Hw. rewrite Hh. simpl.
      apply (strip_prefix_hex w _ x); [|exact Hw]. apply Hbytes. by left. }
  unfold trimEnd. rewrite rev_app_distr, rev_concat_map.
  rewrite strip_all_run.
  - by rewrite rev_involutive, utf8_decode_utf8.
  - intros rw rest [w [<- Hw]]%in_map_iff. apply strip_one_reversed.
    apply in_rev in Hw. rewrite List.Forall_forall in Hafter. by apply Hafter.
  - rewrite length_map, length_rev, length_app.
    pose proof (length_whitespace_run _ Hafter). lia.
  - apply strip_one_None. intros rw [w [<- Hw]]%in_map_iff.
    destruct (rev (utf8 h)) as [|y rb] eqn:Hrev.
    { apply (f_equal (@rev byte)) in Hrev. rewrite rev_involutive in Hrev.
      rewrite Hrev in Hh. discriminate. }
    apply (strip_prefix_hex w _ y); [|exact Hw]. apply Hbytes, in_rev.
    rewrite <- Hh, Hrev. by left.
Qed.

(** X16. Whitespace around the stored fingerprint does not matter: a
    cache record that holds a fingerprint between any runs of JavaScript
    whitespace (a carriage return before the line feed, blanks, a byte
    order mark) is read as that fingerprint, and the bundle counts as up
    to date exactly when the current fingerprint equals it and the bundle
    exists. *)
Theorem record_read_ignores_surrounding_whitespace (sep : ascii)
    (repoRoot : string) (fs : filesystem) (h : string)
    (before after : list (list byte)) :
  allChars isLowerHex h = true -> h <> "" ->
  Forall (fun w => In w whiteSpace) before ->
  Forall (fun w => In w whiteSpace) after ->
  fs !! hashFile sep repoRoot =
    Some (File (concat before ++ utf8 h ++ concat after)) ->
  storedFingerprint sep repoRoot fs = Some h /\
  forall currentHash,
    upToDate sep repoRoot fs currentHash =
      Ok (String.eqb h currentHash &&
          exists_ fs (outputFile sep repoRoot)).
Proof.
  intros Hhex Hne Hbefore Hafter Hrecord.
  pose proof (trim_surrounded h before after Hhex Hne Hbefore Hafter) as Htrim.
  split.
  - unfold storedFingerprint. by rewrite Hrecord, Htrim.
  - intros currentHash. unfold upToDate, exists_, stat, readFile.
    rewrite Hrecord. simpl. by rewrite Htrim.
Qed.

End Whitespace.

(** ** The script ends *)

Section Ending.

Variable sep : ascii.
Variable repoRoot : string.
Variable localeCompare : string -> string -> Z.
Variable npm_execpath : option string.
Variable execPath : string.
Variable platform : string.
Variable spawnSync :
  string -> list string -> filesystem -> spawn_result * filesystem.



End Ending.

(** ** The further properties on the concrete platform *)

Section Examples.

Local Abbreviation inputs := (inputPaths Posix.sep Posix.repoRoot).
Local Abbreviation cacheFile := (hashFile Posix.sep Posix.repoRoot).
Local Abbreviation bundleFile := (outputFile Posix.sep Posix.repoRoot).
Local Abbreviation tsc := (tscArgs Posix.sep Posix.repoRoot).
Local Abbreviation rolldown := (rolldownArgs Posix.sep Posix.repoRoot).
Local Abbreviation current :=
  "4a7aa24db1c54e54c43486c1187d99015488a7f105a74551f8e95e1d1177e43d".
Local Abbreviation withBundle := (<[Posix.bundle := File [x41]]> Posix.checkout).
Local Abbreviation noCacheDir :=
  (delete "/repo/src/canvas-host/a2ui" Posix.checkout).


Lemma walk_flat_directory_witness :
  walk Posix.sep 2 Posix.listed Posix.lit ["seen"] =
    Ok (["seen"] ++ map (path_join Posix.sep Posix.lit) ["t.ts"; "z.ts"]).
Proof.
  apply (walk_flat_directory Posix.sep 0 Posix.listed Posix.lit
           ["t.ts"; "z.ts"] ["seen"]).
  - vm_compute. reflexivity.
  - intros name [ <- | [ <- | [] ] ]; eexists; vm_compute; reflexivity.
Defined.


Lemma normalize_idempotent_witness :
  normalize Win32.sep (normalize Win32.sep Win32.repoRoot) =
    normalize Win32.sep Win32.repoRoot /\
  hasChar Win32.sep (normalize Win32.sep Win32.repoRoot) = false.
Proof.
  destruct (normalize_idempotent Win32.sep Win32.repoRoot) as [Honce Hnone].
  split; [exact Honce|]. apply Hnone. discriminate.
Defined.

Lemma fingerprint_shape_witness :
  String.length current = 64 /\
  allChars isLowerHex current = true /\
  whitespaceFree current = true.
Proof.
  apply (fingerprint_shape Posix.sep Posix.repoRoot Posix.byteCompare
           inputs 10 Posix.checkout current).
  vm_compute. reflexivity.
Defined.




Lemma successful_build_records_fingerprint_witness :
  Posix.run Posix.toolsSucceed 10 Posix.checkout =
    (Some 0%Z,
     World Posix.built
       [ Spawn "pnpm" tsc; Spawn "pnpm" rolldown;
         WriteFile cacheFile (current +:+ String "010" "") ]) /\
  storedFingerprint Posix.sep Posix.repoRoot Posix.built = Some current.
Proof.
  unfold Posix.run.
  refine (successful_build_records_fingerprint Posix.sep Posix.repoRoot
            Posix.byteCompare None "/usr/bin/node" "linux" Posix.toolsSucceed
            10 Posix.checkout current
            (SpawnResult None (Some 0%Z)) (SpawnResult None (Some 0%Z))
            Posix.checkout withBundle Posix.built _ _ _ _ _ _ _ _ _ _).
  - eexists. vm_compute. reflexivity.
  - eexists. vm_compute. reflexivity.
  - vm_compute. reflexivity.
  - intros entries. vm_compute. discriminate.
  - intros [Hstored _]. vm_compute in Hstored. discriminate.
  - vm_compute. reflexivity.
  - reflexivity.
  - vm_compute. reflexivity.
  - reflexivity.
  - vm_compute. reflexivity.
Defined.



Lemma diagnostics_exactly_on_failure_witness :
  errorLines (w_trace (snd (Posix.run Posix.toolsFail 10 Posix.checkout))) =
    [ "A2UI bundling failed. Re-run with: pnpm canvas:a2ui:bundle";
      "If this persists, verify pnpm deps and try again.";
      "Error: Command failed: pnpm -s exec tsc -p /repo/vendor/a2ui/renderers/lit/tsconfig.json" ].
Proof.
  destruct (diagnostics_exactly_on_failure Posix.sep Posix.repoRoot
              Posix.byteCompare None "/usr/bin/node" "linux" Posix.toolsFail
              10 Posix.checkout (Some 1%Z)
              (snd (Posix.run Posix.toolsFail 10 Posix.checkout)))
    as [[Hcode _]|[(_ & err & Hmain & Hlines)|[Hcode _]]].
  - vm_compute. reflexivity.
  - discriminate.
  - vm_compute in Hmain. injection Hmain as <-. exact Hlines.
  - discriminate.
Defined.


Lemma record_read_ignores_surrounding_whitespace_witness :
  let fs :=
    <[cacheFile := File ([xef; xbb; xbf] ++ utf8 current ++ [x0d; x0a])]>
      withBundle in
  storedFingerprint Posix.sep Posix.repoRoot fs = Some current /\
  forall currentHash,
    upToDate Posix.sep Posix.repoRoot fs currentHash =
      Ok (String.eqb current currentHash && exists_ fs bundleFile).
Proof.
  intros fs.
  refine (record_read_ignores_surrounding_whitespace Posix.sep Posix.repoRoot
            fs current [[xef; xbb; xbf]] [[x0d]; [x0a]] _ _ _ _ _).
  - vm_compute. reflexivity.
  - discriminate.
  - constructor; [|constructor].
    unfold whiteSpace. simpl. repeat (first [left; reflexivity | right]).
  - constructor; [|constructor; [|constructor]];
      unfold whiteSpace; simpl; repeat (first [left; reflexivity | right]).
  - apply lookup_insert_eq.
Defined.


End Examples.
